(** * embed_shaders.py: shader binaries to C++ byte-array headers

    A shallow embedding of [scripts/embed_shaders.py] and the properties
    of the text it generates.  Python [str] values are [string]s, [bytes]
    values are lists of [byte], the insertion-ordered [dict] of the script
    is an association list, and exceptions are a sum type threaded through
    a small error monad. *)

From Stdlib Require Import String Ascii List NArith Arith Lia Bool.
From Stdlib Require Import Strings.Byte.
From Stdlib Require Import DecimalString Permutation.
Import ListNotations.
Open Scope list_scope.
Open Scope string_scope.

(** ** Python primitives used by the script *)

Module Py.

(** The newline character of the ["\n"] escapes. *)
Definition nl : string := String (ascii_of_nat 10) "".

Definition bytes := list byte.

(** [range(start, stop, step)] for a positive [step]. *)
Fixpoint range_from (start step count : nat) : list nat :=
  match count with
  | O => []
  | S c => start :: range_from (start + step) step c
  end.

Definition range (start stop step : nat) : list nat :=
  range_from start step ((stop - start + step - 1) / step).

(** [data[i:j]] for [0 <= i <= j]; Python clips the slice to the data. *)
Definition slice {A : Type} (data : list A) (i j : nat) : list A :=
  firstn (j - i) (skipn i data).

(** One digit of the ['x'] presentation type: lowercase hexadecimal. *)
Definition hex_digit (d : N) : ascii :=
  match d with
  | 0 => "0" | 1 => "1" | 2 => "2" | 3 => "3"
  | 4 => "4" | 5 => "5" | 6 => "6" | 7 => "7"
  | 8 => "8" | 9 => "9" | 10 => "a" | 11 => "b"
  | 12 => "c" | 13 => "d" | 14 => "e" | _ => "f"
  end%N%char.

Fixpoint hex_loop (fuel : nat) (n : N) (acc : string) : string :=
  match fuel with
  | O => acc
  | S f =>
      let acc' := String (hex_digit (n mod 16)) acc in
      if (n / 16 =? 0)%N then acc' else hex_loop f (n / 16) acc'
  end.

(** [format(n, 'x')]. *)
Definition format_x (n : N) : string :=
  hex_loop (S (N.to_nat (N.log2 n))) n "".

Fixpoint repeat_char (c : ascii) (k : nat) : string :=
  match k with
  | O => ""
  | S k' => String c (repeat_char c k')
  end.

(** The [0<width>] part of a format spec: left padding with zeros. *)
Definition zero_fill (width : nat) (s : string) : string :=
  repeat_char "0" (width - String.length s) ++ s.

(** [f'{b:02x}'] *)
Definition format_02x (n : N) : string := zero_fill 2 (format_x n).

(** [str(n)] for a length. *)
Definition str_of_nat (n : nat) : string :=
  NilEmpty.string_of_uint (Nat.to_uint n).

(** [s.split(sep)] for a one-character separator: never an empty list. *)
Fixpoint split (sep : ascii) (s : string) : list string :=
  match s with
  | "" => [""]
  | String c s' =>
      if Ascii.eqb c sep then "" :: split sep s'
      else match split sep s' with
           | t :: ts => String c t :: ts
           | [] => [String c ""]
           end
  end.

(** [s.rfind(c)]: index of the last occurrence. *)
Fixpoint rfind (c : ascii) (s : string) : option nat :=
  match s with
  | "" => None
  | String a s' =>
      match rfind c s' with
      | Some i => Some (S i)
      | None => if Ascii.eqb a c then Some 0 else None
      end
  end.

(** [s.endswith(suffix)] *)
Definition endswith (s suffix : string) : bool :=
  let n := String.length s in
  let m := String.length suffix in
  (m <=? n)%nat && String.eqb (substring (n - m) m s) suffix.

End Py.

Import Py.

(** ** [bytes_to_cpp_array] *)

(** [f'0x{b:02x}'] *)
Definition hex_literal (b : byte) : string :=
  "0x" ++ format_02x (Byte.to_N b).

(** The body of the [for i in range(0, len(data), 16)] loop. *)
Definition emit_row (data : bytes) (result : string) (i : nat) : string :=
  let chunk := slice data i (i + 16) in
  let hex_bytes := String.concat ", " (map hex_literal chunk) in
  let result := result ++ "    " ++ hex_bytes in
  let result := if (i + 16 <? List.length data)%nat then result ++ "," else result in
  result ++ nl.

Definition bytes_to_cpp_array (data : bytes) (var_name : string) : string :=
  let result := "static const uint8_t " ++ var_name ++ "[] = {" ++ nl in
  let result := fold_left (emit_row data) (range 0 (List.length data) 16) result in
  let result := result ++ "};" ++ nl in
  let result :=
    result ++ "static const size_t " ++ var_name ++ "_size = sizeof("
           ++ var_name ++ ");" ++ nl ++ nl in
  result.

(** ** Exceptions and the error monad *)

(** The exceptions the script can raise: the failed list index of the
    token lookup, the operating-system errors of [open], and the
    [SystemExit] of [sys.exit]. *)
Inductive exn : Type :=
| IndexError (msg : string)
| OSError (filename : string)
| SystemExit (code : nat).

(** The name of the exception's class, as a traceback prints it. *)
Definition exn_class (e : exn) : string :=
  match e with
  | IndexError _ => "IndexError"
  | OSError _ => "OSError"
  | SystemExit _ => "SystemExit"
  end.

(** The text the exception carries. *)
Definition exn_text (e : exn) : string :=
  match e with
  | IndexError msg => msg
  | OSError filename => filename
  | SystemExit code => str_of_nat code
  end.

Definition res (A : Type) : Type := exn + A.

Definition ok {A : Type} (a : A) : res A := inr a.
Definition raise {A : Type} (e : exn) : res A := inl e.

Definition bind {A B : Type} (m : res A) (k : A -> res B) : res B :=
  match m with
  | inl e => inl e
  | inr a => k a
  end.

Notation "x <- m ;; k" := (bind m (fun x => k))
  (at level 61, m at next level, right associativity).

(** A [for] loop whose body may raise: the first exception ends the loop. *)
Fixpoint for_each {A S : Type} (body : S -> A -> res S) (xs : list A) (s : S)
  : res S :=
  match xs with
  | [] => ok s
  | x :: xs' => s' <- body s x ;; for_each body xs' s'
  end.

(** [xs[k]] *)
Definition index {A : Type} (xs : list A) (k : nat) : res A :=
  match nth_error xs k with
  | Some x => ok x
  | None => raise (IndexError "list index out of range")
  end.

(** ** Paths and the file system *)

(** A [Path] below the input directory. *)
Record path : Type := mkPath { parent : string; name : string }.

(** [Path.stem]: the final component without its suffix; a leading or a
    trailing dot does not start a suffix. *)
Definition stem (p : path) : string :=
  let n := name p in
  match rfind "." n with
  | Some i =>
      if (0 <? i)%nat && (i <? String.length n - 1)%nat
      then substring 0 i n else n
  | None => n
  end.

(** What the script observes of the file system.  [listdir] is the scan
    of a directory in enumeration order (empty for a missing directory,
    whose glob yields nothing); [exists_] and [read_bytes] are asked
    later, when the content is embedded ([read_bytes] gives nothing for
    a file that cannot be opened or read), and [write_ok] says whether
    the output path can be opened for writing. *)
Record world : Type := mkWorld {
  listdir : string -> list string;
  exists_ : path -> bool;
  read_bytes : path -> option bytes;
  write_ok : string -> bool
}.

(** The root of a POSIX path and the text after it: no root for a
    relative path, [//] for exactly two leading slashes, [/] for one or
    for three and more. *)
Definition path_root (s : string) : string * string :=
  match s with
  | String "/" (String "/" (String "/" r)) => ("/", String "/" (String "/" r))
  | String "/" (String "/" r) => ("//", r)
  | String "/" r => ("/", r)
  | _ => ("", s)
  end.

(** The components of a path after its root: empty components and [.]
    are dropped when a [Path] is built. *)
Definition path_tail (s : string) : list string :=
  filter (fun x => negb (String.eqb x "") && negb (String.eqb x "."))
         (split "/" (snd (path_root s))).

(** [str(p)] for a path the glob yields: the normalised directory, a
    separator unless the directory is only a root or is the current
    directory, and the name. *)
Definition path_str (p : path) : string :=
  let root := fst (path_root (parent p)) in
  match path_tail (parent p) with
  | [] => root ++ name p
  | tail => root ++ String.concat "/" tail ++ "/" ++ name p
  end.

(** [with open(p, 'rb') as f: f.read()] *)
Definition open_rb (w : world) (p : path) : res bytes :=
  match read_bytes w p with
  | Some data => ok data
  | None => raise (OSError (path_str p))
  end.

(** [input_path.glob("*.bin")] on a case-sensitive file system: the
    entries of the directory whose name ends in [.bin]. *)
Definition glob_bin (w : world) (input_dir : string) : list path :=
  map (mkPath input_dir)
      (filter (fun n => endswith n ".bin") (listdir w input_dir)).

(** What a run leaves behind: the output file, if it was written, and
    the text printed to standard output. *)
Record effects : Type := mkEffects {
  written : option (string * string);
  stdout : string
}.

Definition no_effects : effects := mkEffects None "".

(** ** The insertion-ordered dictionary [shader_files] *)

Definition dict : Type := list (string * option path).

Fixpoint dict_mem (k : string) (d : dict) : bool :=
  match d with
  | [] => false
  | (k', _) :: d' => String.eqb k' k || dict_mem k d'
  end.

(** [d[k] = v] for a key that may be present: the entry keeps its place;
    a new key goes last. *)
Fixpoint dict_set (k : string) (v : option path) (d : dict) : dict :=
  match d with
  | [] => [(k, v)]
  | (k', v') :: d' =>
      if String.eqb k' k then (k', v) :: d' else (k', v') :: dict_set k v d'
  end.

Fixpoint dict_get (k : string) (d : dict) : option (option path) :=
  match d with
  | [] => None
  | (k', v) :: d' => if String.eqb k' k then Some v else dict_get k d'
  end.

(** ** [embed_shaders] *)

Definition shader_files0 : dict := [("vs_lines", None); ("fs_lines", None)].

(** [name.split('_')[0] + '_' + name.split('_')[1]] *)
Definition base_name_of (nm : string) : res string :=
  t0 <- index (split "_" nm) 0 ;;
  t1 <- index (split "_" nm) 1 ;;
  ok (t0 ++ "_" ++ t1).

(** The body of the scan loop. *)
Definition scan_step (shader_files : dict) (shader_file : path) : res dict :=
  let nm := stem shader_file in
  base_name <- base_name_of nm ;;
  if dict_mem base_name shader_files
  then ok (dict_set base_name (Some shader_file) shader_files)
  else ok shader_files.

Definition header_preamble : string :=
  "#pragma once" ++ nl ++
  nl ++
  "// Auto-generated embedded shaders for high-performance GPU rendering" ++ nl ++
  "// Generated from compiled bgfx shader binaries" ++ nl ++
  nl ++
  "#include <cstdint>" ++ nl ++
  "#include <cstddef>" ++ nl ++
  nl ++
  "namespace oscil::shaders {" ++ nl ++
  nl.

(** The [else] branch of the embedding loop. *)
Definition placeholder (header_content shader_name : string) : string :=
  let var_name := "embedded_" ++ shader_name in
  let header_content :=
    header_content ++ "// " ++ shader_name
                   ++ " shader (placeholder - not compiled)" ++ nl in
  let header_content :=
    header_content ++ "static const uint8_t " ++ var_name ++ "[] = {0x00};" ++ nl in
  header_content ++ "static const size_t " ++ var_name ++ "_size = 1;" ++ nl ++ nl.

(** The body of the embedding loop over [shader_files.items()]. *)
Definition embed_step (w : world) (header_content : string)
  (item : string * option path) : res string :=
  let (shader_name, shader_path) := item in
  match shader_path with
  | Some p =>
      if exists_ w p then
        shader_data <- open_rb w p ;;
        let var_name := "embedded_" ++ shader_name in
        let header_content :=
          header_content ++ "// " ++ shader_name ++ " shader ("
                         ++ str_of_nat (List.length shader_data) ++ " bytes)" ++ nl in
        ok (header_content ++ bytes_to_cpp_array shader_data var_name)
      else ok (placeholder header_content shader_name)
  | None => ok (placeholder header_content shader_name)
  end.

(** The header text, up to the point where it is written. *)
Definition header_text (w : world) (input_dir : string) : res string :=
  shader_files <- for_each scan_step (glob_bin w input_dir) shader_files0 ;;
  header_content <- for_each (embed_step w) shader_files header_preamble ;;
  ok (header_content ++ "} // namespace oscil::shaders" ++ nl).

(** [print(s)]; standard output is taken to accept the text. *)
Definition print (s : string) (fx : effects) : effects :=
  mkEffects (written fx) (stdout fx ++ s ++ nl).

(** [with open(output_header, 'w') as f: f.write(content)]: [open]
    raises and leaves no file, or the file is opened; the write and the
    close of an opened file are taken to complete. *)
Definition write_file (w : world) (output_header content : string)
  (fx : effects) : res effects :=
  if write_ok w output_header
  then ok (mkEffects (Some (output_header, content)) (stdout fx))
  else raise (OSError output_header).

(** A run returns the exception that ended it, or nothing, together with
    the effects it had until then. *)
Definition embed_shaders (w : world) (input_dir output_header : string)
  (fx : effects) : res unit * effects :=
  match header_text w input_dir with
  | inl e => (inl e, fx)
  | inr header_content =>
      match write_file w output_header header_content fx with
      | inl e => (inl e, fx)
      | inr fx' =>
          (ok tt,
           print ("Generated embedded shader header: " ++ output_header) fx')
      end
  end.

(** ** The command line *)

Definition usage : string :=
  "Usage: python3 embed_shaders.py <input_dir> <output_header>".

(** The [__main__] block; [argv] is [sys.argv]. *)
Definition main (w : world) (argv : list string) (fx : effects)
  : res unit * effects :=
  if negb (List.length argv =? 3)%nat then
    (raise (SystemExit 1), print usage fx)
  else
    match argv with
    | [_; input_dir; output_header] => embed_shaders w input_dir output_header fx
    | _ => (raise (IndexError "list index out of range"), fx)
    end.

(** The exit status of the interpreter: the code of [SystemExit], 1 for
    any other unhandled exception, 0 otherwise. *)
Definition exit_status (r : res unit) : nat :=
  match r with
  | inr _ => 0
  | inl (SystemExit code) => code
  | inl _ => 1
  end.

(** ** Reading the generated text back

    The observers through which the properties of the generated text are
    stated: they take a declaration apart the way a reader of the header
    would, and are not part of the script. *)

Module Reader.

Fixpoint strip_prefix (p s : string) : option string :=
  match p, s with
  | "", _ => Some s
  | String a p', String b s' =>
      if Ascii.eqb a b then strip_prefix p' s' else None
  | String _ _, "" => None
  end.

(** The text before the first [c] and the text after it. *)
Fixpoint until_char (c : ascii) (s : string) : option (string * string) :=
  match s with
  | "" => None
  | String a s' =>
      if Ascii.eqb a c then Some ("", s')
      else match until_char c s' with
           | Some (before, after) => Some (String a before, after)
           | None => None
           end
  end.

Definition is_blank (c : ascii) : bool :=
  Ascii.eqb c " " || Ascii.eqb c (ascii_of_nat 10).

Fixpoint drop_blanks (s : string) : string :=
  match s with
  | "" => ""
  | String a s' =>
      if is_blank a then drop_blanks s' else String a (drop_blanks s')
  end.

(** The comma-separated entries of a brace-enclosed initializer; an
    initializer that holds only blanks has none. *)
Definition initializer_tokens (init : string) : list string :=
  let s := drop_blanks init in
  if String.eqb s "" then [] else split "," s.

Definition hex_value (c : ascii) : option N :=
  let n := N_of_ascii c in
  if (48 <=? n)%N && (n <=? 57)%N then Some (n - 48)%N
  else if (97 <=? n)%N && (n <=? 102)%N then Some (n - 87)%N
  else if (65 <=? n)%N && (n <=? 70)%N then Some (n - 55)%N
  else None.

(** The byte a [0xHH] token denotes. *)
Definition decode_hex_literal (tok : string) : option byte :=
  match tok with
  | String "0" (String "x" (String h (String l ""))) =>
      match hex_value h, hex_value l with
      | Some a, Some b => Byte.of_N (16 * a + b)
      | _, _ => None
      end
  | _ => None
  end.

Fixpoint decode_all (toks : list string) : option bytes :=
  match toks with
  | [] => Some []
  | t :: ts =>
      match decode_hex_literal t, decode_all ts with
      | Some b, Some bs => Some (b :: bs)
      | _, _ => None
      end
  end.

(** The entries of the initializer of [var_name]'s array declaration at
    the head of [text], and the text after the closing brace. *)
Definition read_array_decl (var_name text : string)
  : option (list string * string) :=
  match strip_prefix ("static const uint8_t " ++ var_name ++ "[] = {") text with
  | Some rest =>
      match until_char "}" rest with
      | Some (init, rest') => Some (initializer_tokens init, rest')
      | None => None
      end
  | None => None
  end.

Inductive size_expr : Type :=
| SizeofArray (x : string)
| SizeLiteral (n : nat).

(** The initializer of the size constant that follows the array of
    [var_name]. *)
Definition read_size_decl (var_name text : string) : option size_expr :=
  match strip_prefix (";" ++ nl ++ "static const size_t " ++ var_name
                          ++ "_size = ") text with
  | Some rest =>
      if String.eqb rest ("sizeof(" ++ var_name ++ ");" ++ nl ++ nl)
      then Some (SizeofArray var_name)
      else if String.eqb rest ("1;" ++ nl ++ nl)
      then Some (SizeLiteral 1)
      else None
  | None => None
  end.

(** The value of a size expression where [arrays] gives the element
    count of each declared [uint8_t] array: [sizeof] of such an array is
    its element count. *)
Fixpoint eval_size (arrays : list (string * nat)) (e : size_expr)
  : option nat :=
  match e with
  | SizeLiteral n => Some n
  | SizeofArray x =>
      match arrays with
      | [] => None
      | (y, n) :: arrays' =>
          if String.eqb y x then Some n else eval_size arrays' e
      end
  end.

(** Number of occurrences of a character. *)
Fixpoint count_char (c : ascii) (s : string) : nat :=
  match s with
  | "" => 0
  | String a s' => (if Ascii.eqb a c then 1 else 0) + count_char c s'
  end.

End Reader.

Import Reader.

(** ** The layout the formatting contract describes *)

Module Layout.

(** One line of the array body: indentation, the entries joined by
    [", "], a comma unless the line is the last one, a newline. *)
Definition row_line (r : bytes) (last : bool) : string :=
  "    " ++ String.concat ", " (map hex_literal r)
         ++ (if last then "" else ",") ++ nl.

Fixpoint render_rows (rows : list bytes) : string :=
  match rows with
  | [] => ""
  | r :: rest =>
      match rest with
      | [] => row_line r true
      | _ :: _ => row_line r false ++ render_rows rest
      end
  end.

(** Every row but the last holds sixteen bytes; the last holds between
    one and sixteen. *)
Fixpoint rows_ok (rows : list bytes) : Prop :=
  match rows with
  | [] => True
  | r :: rest =>
      match rest with
      | [] => 1 <= List.length r <= 16
      | _ :: _ => List.length r = 16 /\ rows_ok rest
      end
  end.

Definition is_lower_hex (c : ascii) : bool :=
  let n := N_of_ascii c in
  ((48 <=? n)%N && (n <=? 57)%N) || ((97 <=? n)%N && (n <=? 102)%N).

Definition decl_open (var_name : string) : string :=
  "static const uint8_t " ++ var_name ++ "[] = {" ++ nl.

Definition decl_close (var_name : string) : string :=
  "};" ++ nl ++ "static const size_t " ++ var_name ++ "_size = sizeof("
       ++ var_name ++ ");" ++ nl ++ nl.

End Layout.

Import Layout.

(** ** Notions used in the proofs *)

(** [lacks c s]: the character [c] does not occur in [s]. *)
Definition lacks (c : ascii) (s : string) : Prop := count_char c s = 0.

Definition flatten (ls : list string) : string :=
  fold_right append "" ls.

(** What the iteration at index [i] appends. *)
Definition row_text (data : bytes) (i : nat) : string :=
  row_line (slice data i (i + 16)) (negb (i + 16 <? List.length data)%nat).

(** [count] steps of sixteen from [start] cover the data exactly. *)
Definition covers (data : bytes) (start count : nat) : Prop :=
  match count with
  | O => List.length data <= start
  | S c => start + 16 * c < List.length data <= start + 16 * S c
  end.

Definition rows_from (data : bytes) (start count : nat) : list bytes :=
  map (fun i => slice data i (i + 16)) (range_from start 16 count).

(** The rows the loop writes. *)
Definition rows (data : bytes) : list bytes :=
  rows_from data 0 ((List.length data - 0 + 16 - 1) / 16).

(** The text that follows the closing brace of the array. *)
Definition size_decl_text (var_name : string) : string :=
  ";" ++ nl ++ "static const size_t " ++ var_name ++ "_size = sizeof("
      ++ var_name ++ ");" ++ nl ++ nl.

(** The text of a placeholder declaration. *)
Definition placeholder_decl (shader_name : string) : string :=
  "static const uint8_t embedded_" ++ shader_name ++ "[] = {0x00};" ++ nl
  ++ "static const size_t embedded_" ++ shader_name ++ "_size = 1;" ++ nl ++ nl.

(** The underscore-separated tokens of a file's stem. *)
Definition tokens (p : path) : list string := split "_" (stem p).

(** A stem with at least two tokens. *)
Definition well_formed (p : path) : bool := (2 <=? List.length (tokens p))%nat.

(** The first two tokens rejoined: the derived slot key. *)
Definition slot_key (p : path) : string :=
  nth 0 (tokens p) "" ++ "_" ++ nth 1 (tokens p) "".

(** The last file of [ps] whose slot key is [k], after [acc]. *)
Definition last_match (k : string) (ps : list path) (acc : option path)
  : option path :=
  fold_left (fun a p => if String.eqb (slot_key p) k then Some p else a) ps acc.

(** The files a dictionary holds. *)
Definition selected (d : dict) : list path :=
  flat_map (fun kv => match snd kv with Some p => [p] | None => [] end) d.

(** [decl] declares the array and the size constant of slot [k], and the
    size constant evaluates to the number of entries of the array. *)
Definition consistent_decl (k decl : string) : Prop :=
  exists (toks : list string) (tail : string) (e : size_expr),
    read_array_decl ("embedded_" ++ k) decl = Some (toks, tail)
    /\ decode_all toks <> None
    /\ read_size_decl ("embedded_" ++ k) tail = Some e
    /\ eval_size [("embedded_" ++ k, List.length toks)] e
       = Some (List.length toks).

(** The section of the header for slot [k]: a comment line and a
    declaration. *)
Definition slot_section (k note decl : string) : string :=
  "// " ++ k ++ " shader (" ++ note ++ ")" ++ nl ++ decl.

(** The section the loop writes for a slot, when it writes one. *)
Definition section_of (w : world) (k : string) (v : option path) (s : string)
  : Prop :=
  forall h, embed_step w h (k, v) = ok (h ++ s).

(** The line the confirmation prints. *)
Definition confirmation (output_header : string) : string :=
  "Generated embedded shader header: " ++ output_header ++ nl.
(** ** Strings *)

Section StringFacts.

Lemma append_assoc (a b c : string) : (a ++ b) ++ c = a ++ (b ++ c).
Proof.
  induction a as [|x a IH]; simpl; [reflexivity | now rewrite IH].
Qed.

Lemma append_nil_r (a : string) : a ++ "" = a.
Proof.
  induction a as [|x a IH]; simpl; [reflexivity | now rewrite IH].
Qed.

Lemma strip_prefix_app (p s : string) : strip_prefix p (p ++ s) = Some s.
Proof.
  induction p as [|x p IH]; simpl.
  - now destruct s.
  - now rewrite Ascii.eqb_refl.
Qed.

Lemma count_char_app (c : ascii) (a b : string) :
  count_char c (a ++ b) = count_char c a + count_char c b.
Proof.
  induction a as [|x a IH]; simpl; [reflexivity | rewrite IH; lia].
Qed.

Lemma lacks_app (c : ascii) (a b : string) :
  lacks c a -> lacks c b -> lacks c (a ++ b).
Proof.
  unfold lacks; intros Ha Hb; rewrite count_char_app; lia.
Qed.

Lemma lacks_cons (c x : ascii) (a : string) :
  lacks c (String x a) -> Ascii.eqb x c = false /\ lacks c a.
Proof.
  unfold lacks; simpl; destruct (Ascii.eqb x c); [discriminate | auto].
Qed.

Lemma until_char_app (c : ascii) (a b : string) :
  lacks c a -> until_char c (a ++ String c b) = Some (a, b).
Proof.
  induction a as [|x a IH]; simpl; intros H.
  - now rewrite Ascii.eqb_refl.
  - apply lacks_cons in H as [-> H]. now rewrite (IH H).
Qed.

Lemma drop_blanks_app (a b : string) :
  drop_blanks (a ++ b) = drop_blanks a ++ drop_blanks b.
Proof.
  induction a as [|x a IH]; simpl; [reflexivity|].
  destruct (is_blank x); simpl; now rewrite IH.
Qed.

Lemma split_lacks (c : ascii) (t : string) :
  lacks c t -> split c t = [t].
Proof.
  induction t as [|x t IH]; simpl; intros H; [reflexivity|].
  apply lacks_cons in H as [-> H]. now rewrite (IH H).
Qed.

Lemma split_app (c : ascii) (t rest : string) :
  lacks c t -> split c (t ++ String c rest) = t :: split c rest.
Proof.
  induction t as [|x t IH]; simpl; intros H.
  - now rewrite Ascii.eqb_refl.
  - apply lacks_cons in H as [-> H]. now rewrite (IH H).
Qed.

Lemma split_length (c : ascii) (s : string) :
  List.length (split c s) = S (count_char c s).
Proof.
  induction s as [|x s IH]; simpl; [reflexivity|].
  destruct (Ascii.eqb x c); simpl; [now rewrite IH|].
  destruct (split c s); simpl in *; lia.
Qed.

End StringFacts.

(** ** Hexadecimal literals *)

Section HexFacts.

Lemma hex_literal_shape (b : byte) :
  exists h l : ascii,
    hex_literal b = String "0" (String "x" (String h (String l "")))
    /\ is_lower_hex h = true /\ is_lower_hex l = true
    /\ hex_value h = Some (Byte.to_N b / 16)%N
    /\ hex_value l = Some (Byte.to_N b mod 16)%N.
Proof.
  destruct b; do 2 eexists; (split; [reflexivity|]); repeat split.
Qed.

Lemma decode_hex_literal_ok (b : byte) :
  decode_hex_literal (hex_literal b) = Some b.
Proof. destruct b; vm_compute; reflexivity. Qed.

Lemma hex_literal_lacks_comma (b : byte) : lacks "," (hex_literal b).
Proof. destruct b; vm_compute; reflexivity. Qed.

Lemma hex_literal_lacks_brace (b : byte) : lacks "}" (hex_literal b).
Proof. destruct b; vm_compute; reflexivity. Qed.

Lemma hex_literal_no_blank (b : byte) :
  drop_blanks (hex_literal b) = hex_literal b.
Proof. destruct b; vm_compute; reflexivity. Qed.

Lemma hex_literal_cons (b : byte) :
  exists c s, hex_literal b = String c s.
Proof. destruct (hex_literal_shape b) as (h & l & -> & _). eauto. Qed.

End HexFacts.

(** ** The row loop *)

Section RowLoop.

Variable data : bytes.

Lemma emit_row_eq (acc : string) (i : nat) :
  emit_row data acc i = acc ++ row_text data i.
Proof.
  unfold emit_row, row_text, row_line.
  destruct (i + 16 <? List.length data)%nat; simpl negb; cbv iota;
    now rewrite !append_assoc.
Qed.

Lemma fold_emit_row (idxs : list nat) (acc : string) :
  fold_left (emit_row data) idxs acc = acc ++ flatten (map (row_text data) idxs).
Proof.
  revert acc; induction idxs as [|i idxs IH]; intros acc; simpl.
  - now rewrite append_nil_r.
  - now rewrite IH, emit_row_eq, append_assoc.
Qed.

Lemma covers_range : covers data 0 ((List.length data - 0 + 16 - 1) / 16).
Proof.
  unfold covers.
  remember (List.length data) as n.
  destruct ((n - 0 + 16 - 1) / 16) as [|c] eqn:E.
  - assert (H := Nat.div_mod_eq (n - 0 + 16 - 1) 16).
    assert (H' := Nat.mod_upper_bound (n - 0 + 16 - 1) 16).
    lia.
  - assert (H := Nat.div_mod_eq (n - 0 + 16 - 1) 16).
    assert (H' := Nat.mod_upper_bound (n - 0 + 16 - 1) 16).
    lia.
Qed.

Lemma slice_16 (i : nat) :
  slice data i (i + 16) = firstn 16 (skipn i data).
Proof. unfold slice. now replace (i + 16 - i) with 16 by lia. Qed.

Lemma rows_from_concat (count start : nat) :
  covers data start count -> List.concat (rows_from data start count) = skipn start data.
Proof.
  revert start; induction count as [|c IH]; intros start H; simpl in *.
  - symmetry. now apply skipn_all2.
  - unfold rows_from in *; simpl. rewrite IH.
    + rewrite slice_16.
      replace (start + 16) with (16 + start) by lia.
      rewrite <- skipn_skipn. apply firstn_skipn.
    + destruct c; simpl in *; lia.
Qed.

Lemma slice_length (i : nat) :
  List.length (slice data i (i + 16)) = Nat.min 16 (List.length data - i).
Proof. rewrite slice_16, length_firstn, length_skipn. reflexivity. Qed.

Lemma rows_from_ok (count start : nat) :
  covers data start count -> rows_ok (rows_from data start count).
Proof.
  revert start; induction count as [|c IH]; intros start H; simpl in *.
  - exact I.
  - unfold rows_from in *. simpl.
    destruct c as [|c']; simpl.
    + rewrite slice_length. lia.
    + split.
      * rewrite slice_length. lia.
      * apply (IH (start + 16)). simpl in *. lia.
Qed.

Lemma rows_from_render (count start : nat) :
  covers data start count ->
  flatten (map (row_text data) (range_from start 16 count))
  = render_rows (rows_from data start count).
Proof.
  revert start; induction count as [|c IH]; intros start H; simpl in *.
  - reflexivity.
  - unfold rows_from in *. simpl.
    destruct c as [|c'].
    + simpl. rewrite append_nil_r. unfold row_text.
      replace (start + 16 <? List.length data)%nat with false; [reflexivity|].
      symmetry; apply Nat.ltb_ge; lia.
    + change (range_from (start + 16) 16 (S c'))
        with ((start + 16) :: range_from (start + 16 + 16) 16 c') in *.
      specialize (IH (start + 16)).
      simpl map in *. simpl fold_right in *.
      rewrite <- IH by (simpl in *; lia).
      unfold row_text at 1.
      replace (start + 16 <? List.length data)%nat with true; [reflexivity|].
      symmetry; apply Nat.ltb_lt; lia.
Qed.

Lemma rows_concat : List.concat (rows data) = data.
Proof. unfold rows. now rewrite rows_from_concat by apply covers_range. Qed.

Lemma rows_rows_ok : rows_ok (rows data).
Proof. apply rows_from_ok, covers_range. Qed.

Lemma bytes_to_cpp_array_rows (var_name : string) :
  bytes_to_cpp_array data var_name
  = decl_open var_name ++ render_rows (rows data) ++ decl_close var_name.
Proof.
  unfold bytes_to_cpp_array, range, decl_open, decl_close, rows.
  rewrite fold_emit_row, rows_from_render by apply covers_range.
  now rewrite !append_assoc.
Qed.

End RowLoop.

(** ** Reading the rows back *)

Section ReadBack.

Lemma concat_cons2 (sep x y : string) (l : list string) :
  String.concat sep (x :: y :: l) = x ++ sep ++ String.concat sep (y :: l).
Proof. reflexivity. Qed.

Lemma concat_app (sep : string) (a b : list string) :
  a <> [] -> b <> [] ->
  String.concat sep (a ++ b)%list
  = String.concat sep a ++ sep ++ String.concat sep b.
Proof.
  intros Ha Hb. induction a as [|x a IH]; [congruence|].
  destruct a as [|y a].
  - destruct b; [congruence | reflexivity].
  - change ((x :: y :: a) ++ b)%list with (x :: y :: (a ++ b)%list).
    rewrite !concat_cons2.
    change (y :: (a ++ b)%list) with ((y :: a) ++ b)%list.
    rewrite IH by discriminate. now rewrite !append_assoc.
Qed.

Lemma literals_lack (c : ascii) (sep : string) (r : bytes) :
  (forall b, lacks c (hex_literal b)) -> lacks c sep ->
  lacks c (String.concat sep (map hex_literal r)).
Proof.
  intros Hl Hs. induction r as [|b r IH]; [reflexivity|].
  destruct r as [|b' r]; [apply Hl|].
  change (map hex_literal (b :: b' :: r))
    with (hex_literal b :: hex_literal b' :: map hex_literal r).
  rewrite concat_cons2. auto using lacks_app.
Qed.

Lemma row_line_lacks_brace (r : bytes) (last : bool) :
  lacks "}" (row_line r last).
Proof.
  unfold row_line. repeat apply lacks_app; try reflexivity.
  - apply literals_lack; [apply hex_literal_lacks_brace | reflexivity].
  - now destruct last.
Qed.

Lemma render_rows_lacks_brace (rs : list bytes) : lacks "}" (render_rows rs).
Proof.
  induction rs as [|r rs IH]; [reflexivity|].
  destruct rs as [|r' rs]; [apply row_line_lacks_brace|].
  change (render_rows (r :: r' :: rs))
    with (row_line r false ++ render_rows (r' :: rs)).
  apply lacks_app; [apply row_line_lacks_brace | exact IH].
Qed.

Lemma drop_blanks_literals (r : bytes) :
  drop_blanks (String.concat ", " (map hex_literal r))
  = String.concat "," (map hex_literal r).
Proof.
  induction r as [|b r IH]; [reflexivity|].
  destruct r as [|b' r]; [apply hex_literal_no_blank|].
  simpl map in *.
  rewrite !concat_cons2, !drop_blanks_app, hex_literal_no_blank, IH.
  reflexivity.
Qed.

Lemma drop_blanks_row_line (r : bytes) (last : bool) :
  drop_blanks (row_line r last)
  = String.concat "," (map hex_literal r) ++ (if last then "" else ",").
Proof.
  unfold row_line. rewrite !drop_blanks_app, drop_blanks_literals.
  destruct last; reflexivity.
Qed.

Lemma rows_ok_nonempty (r : bytes) (rs : list bytes) :
  rows_ok (r :: rs) -> r <> [] /\ List.concat (r :: rs) <> [].
Proof.
  intros H.
  assert (Hr : r <> []).
  { destruct rs; simpl in H; destruct r; simpl in *; try discriminate; lia. }
  split; [exact Hr|]. simpl. destruct r; [congruence | discriminate].
Qed.

Lemma rows_ok_tail (r r' : bytes) (rs : list bytes) :
  rows_ok (r :: r' :: rs) -> rows_ok (r' :: rs).
Proof. intros H. exact (proj2 H). Qed.

Lemma drop_blanks_render_rows (rs : list bytes) :
  rows_ok rs ->
  drop_blanks (render_rows rs)
  = String.concat "," (map hex_literal (List.concat rs)).
Proof.
  induction rs as [|r rs IH]; intros H; [reflexivity|].
  destruct rs as [|r' rs].
  - simpl List.concat. rewrite app_nil_r.
    change (render_rows [r]) with (row_line r true).
    now rewrite drop_blanks_row_line, append_nil_r.
  - change (render_rows (r :: r' :: rs))
      with (row_line r false ++ render_rows (r' :: rs)).
    change (List.concat (r :: r' :: rs))
      with (r ++ List.concat (r' :: rs))%list.
    destruct (rows_ok_nonempty _ _ H) as [Hr _].
    destruct (rows_ok_nonempty _ _ (rows_ok_tail _ _ _ H)) as [_ Hc].
    rewrite drop_blanks_app, drop_blanks_row_line, IH
      by exact (rows_ok_tail _ _ _ H).
    rewrite map_app, concat_app.
    + now rewrite !append_assoc.
    + destruct r; [congruence | discriminate].
    + destruct (List.concat (r' :: rs)); [congruence | discriminate].
Qed.

Lemma split_literals (data : bytes) :
  data <> [] ->
  split "," (String.concat "," (map hex_literal data)) = map hex_literal data.
Proof.
  induction data as [|b data IH]; intros H; [congruence|].
  destruct data as [|b' data].
  - apply split_lacks, hex_literal_lacks_comma.
  - simpl map in *.
    rewrite concat_cons2.
    change ("," ++ String.concat "," (hex_literal b' :: map hex_literal data))
      with (String "," (String.concat "," (hex_literal b' :: map hex_literal data))).
    rewrite split_app by apply hex_literal_lacks_comma.
    now rewrite IH by discriminate.
Qed.

Lemma literals_nonempty (sep : string) (b : byte) (data : bytes) :
  String.eqb (String.concat sep (map hex_literal (b :: data))) "" = false.
Proof.
  destruct (hex_literal_cons b) as (c & s & E).
  destruct data; cbn [map String.concat]; rewrite E; reflexivity.
Qed.

Lemma initializer_tokens_rows (data : bytes) :
  initializer_tokens (nl ++ render_rows (rows data)) = map hex_literal data.
Proof.
  unfold initializer_tokens.
  rewrite drop_blanks_app, drop_blanks_render_rows by apply rows_rows_ok.
  rewrite rows_concat. change (drop_blanks nl) with "".
  change ("" ++ ?s) with s.
  destruct data as [|b data]; [reflexivity|].
  rewrite literals_nonempty. now apply split_literals.
Qed.

Lemma read_array_decl_ok (data : bytes) (var_name : string) :
  read_array_decl var_name (bytes_to_cpp_array data var_name)
  = Some (map hex_literal data, size_decl_text var_name).
Proof.
  rewrite bytes_to_cpp_array_rows. unfold read_array_decl, decl_open, decl_close.
  replace (("static const uint8_t " ++ var_name ++ "[] = {" ++ nl)
             ++ render_rows (rows data)
             ++ "};" ++ nl ++ "static const size_t " ++ var_name
             ++ "_size = sizeof(" ++ var_name ++ ");" ++ nl ++ nl)
    with (("static const uint8_t " ++ var_name ++ "[] = {")
            ++ (nl ++ render_rows (rows data))
            ++ String "}" (size_decl_text var_name)).
  - rewrite strip_prefix_app, until_char_app.
    + now rewrite initializer_tokens_rows.
    + apply lacks_app; [reflexivity | apply render_rows_lacks_brace].
  - unfold size_decl_text. rewrite !append_assoc. reflexivity.
Qed.

Lemma read_size_decl_ok (var_name : string) :
  read_size_decl var_name (size_decl_text var_name)
  = Some (SizeofArray var_name).
Proof.
  unfold read_size_decl, size_decl_text.
  replace (";" ++ nl ++ "static const size_t " ++ var_name ++ "_size = sizeof("
               ++ var_name ++ ");" ++ nl ++ nl)
    with ((";" ++ nl ++ "static const size_t " ++ var_name ++ "_size = ")
            ++ ("sizeof(" ++ var_name ++ ");" ++ nl ++ nl))
    by (rewrite !append_assoc; reflexivity).
  now rewrite strip_prefix_app, String.eqb_refl.
Qed.

Lemma decode_all_literals (data : bytes) :
  decode_all (map hex_literal data) = Some data.
Proof.
  induction data as [|b data IH]; [reflexivity|].
  cbn [map decode_all]. now rewrite decode_hex_literal_ok, IH.
Qed.

End ReadBack.

(** ** Commas of the array body *)

Section Commas.

Lemma commas_literals (r : bytes) :
  count_char "," (String.concat ", " (map hex_literal r)) = List.length r - 1.
Proof.
  induction r as [|b r IH]; [reflexivity|].
  destruct r as [|b' r].
  - apply hex_literal_lacks_comma.
  - simpl map in *. rewrite concat_cons2, !count_char_app, IH.
    rewrite (hex_literal_lacks_comma b). simpl. lia.
Qed.

Lemma commas_row_line (r : bytes) (last : bool) :
  count_char "," (row_line r last)
  = List.length r - 1 + (if last then 0 else 1).
Proof.
  unfold row_line. rewrite !count_char_app, commas_literals.
  destruct last; simpl; lia.
Qed.

Lemma commas_render_rows (rs : list bytes) :
  rows_ok rs ->
  count_char "," (render_rows rs) = List.length (List.concat rs) - 1.
Proof.
  induction rs as [|r rs IH]; intros H; [reflexivity|].
  destruct rs as [|r' rs].
  - simpl List.concat. rewrite app_nil_r.
    change (render_rows [r]) with (row_line r true).
    rewrite commas_row_line. lia.
  - change (render_rows (r :: r' :: rs))
      with (row_line r false ++ render_rows (r' :: rs)).
    change (List.concat (r :: r' :: rs))
      with (r ++ List.concat (r' :: rs))%list.
    destruct (rows_ok_nonempty _ _ H) as [Hr _].
    destruct (rows_ok_nonempty _ _ (rows_ok_tail _ _ _ H)) as [_ Hc].
    rewrite count_char_app, commas_row_line, IH
      by exact (rows_ok_tail _ _ _ H).
    rewrite length_app.
    assert (0 < List.length r) by (destruct r; [congruence | simpl; lia]).
    assert (0 < List.length (List.concat (r' :: rs)))
      by (destruct (List.concat (r' :: rs)); [congruence | simpl; lia]).
    lia.
Qed.

End Commas.

(** ** Properties of [bytes_to_cpp_array] *)

(** C1: the array declaration that [bytes_to_cpp_array] emits has exactly
    [len(data)] entries, each a hexadecimal literal, and the size constant
    that follows it is [sizeof] of that same array, whose value for an
    array of [uint8_t] is the entry count, [len(data)]. *)
Theorem array_length_and_size (data : bytes) (var_name : string) :
  exists (toks : list string) (tail : string),
    read_array_decl var_name (bytes_to_cpp_array data var_name)
      = Some (toks, tail)
    /\ List.length toks = List.length data
    /\ Forall (fun t => decode_hex_literal t <> None) toks
    /\ read_size_decl var_name tail = Some (SizeofArray var_name)
    /\ eval_size [(var_name, List.length toks)] (SizeofArray var_name)
       = Some (List.length data).
Proof.
  exists (map hex_literal data), (size_decl_text var_name).
  split; [apply read_array_decl_ok|].
  split; [apply length_map|].
  split.
  - apply Forall_forall. intros t Ht. apply in_map_iff in Ht as (b & <- & _).
    rewrite decode_hex_literal_ok. discriminate.
  - split; [apply read_size_decl_ok|].
    simpl. now rewrite String.eqb_refl, length_map.
Qed.

(** C4: the array body is a sequence of lines, one per row of at most
    sixteen bytes (every row but the last holds exactly sixteen); a line
    is four spaces of indentation, the row's bytes as [0x] followed by two
    lowercase hexadecimal digits, joined by [", "], then a comma unless it
    is the line of the final byte, then a newline.  Hence the body holds
    one comma less than it holds entries: only the final entry has none
    after it. *)
Theorem array_body_layout (data : bytes) (var_name : string) :
  exists rs : list bytes,
    List.concat rs = data
    /\ rows_ok rs
    /\ bytes_to_cpp_array data var_name
       = decl_open var_name ++ render_rows rs ++ decl_close var_name
    /\ count_char "," (render_rows rs) = List.length data - 1
    /\ forall b : byte,
         exists h l : ascii,
           hex_literal b = String "0" (String "x" (String h (String l "")))
           /\ is_lower_hex h = true /\ is_lower_hex l = true
           /\ hex_value h = Some (Byte.to_N b / 16)%N
           /\ hex_value l = Some (Byte.to_N b mod 16)%N.
Proof.
  exists (rows data).
  split; [apply rows_concat|].
  split; [apply rows_rows_ok|].
  split; [apply bytes_to_cpp_array_rows|].
  split.
  - rewrite commas_render_rows by apply rows_rows_ok. now rewrite rows_concat.
  - apply hex_literal_shape.
Qed.

(** C5: for empty data the declaration is the opening line directly
    followed by the closing brace: the initializer has no entry, and the
    text has no comma other than those of the three copies of the name. *)
Theorem empty_array_declaration (var_name : string) :
  bytes_to_cpp_array [] var_name
    = "static const uint8_t " ++ var_name ++ "[] = {" ++ nl
      ++ "};" ++ nl
      ++ "static const size_t " ++ var_name ++ "_size = sizeof("
      ++ var_name ++ ");" ++ nl ++ nl
  /\ (exists tail : string,
        read_array_decl var_name (bytes_to_cpp_array [] var_name)
        = Some ([], tail))
  /\ count_char "," (bytes_to_cpp_array [] var_name)
     = 3 * count_char "," var_name.
Proof.
  assert (E : bytes_to_cpp_array [] var_name
    = "static const uint8_t " ++ var_name ++ "[] = {" ++ nl
      ++ "};" ++ nl
      ++ "static const size_t " ++ var_name ++ "_size = sizeof("
      ++ var_name ++ ");" ++ nl ++ nl).
  { unfold bytes_to_cpp_array.
    change (range 0 (List.length (@nil byte)) 16) with (@nil nat).
    cbn [fold_left]. now rewrite !append_assoc. }
  split; [exact E|].
  split.
  - eexists. apply (read_array_decl_ok [] var_name).
  - rewrite E, !count_char_app. simpl. lia.
Qed.

(** C8: decoding the [0xHH] entries of the emitted array, in order,
    gives back the bytes that were serialized. *)
Theorem array_round_trip (data : bytes) (var_name : string) :
  exists (toks : list string) (tail : string),
    read_array_decl var_name (bytes_to_cpp_array data var_name)
      = Some (toks, tail)
    /\ decode_all toks = Some data.
Proof.
  exists (map hex_literal data), (size_decl_text var_name).
  split; [apply read_array_decl_ok | apply decode_all_literals].
Qed.

(** ** The scan loop *)

Section Scan.

Lemma for_each_app {A S : Type} (body : S -> A -> res S) (xs ys : list A)
  (s : S) :
  for_each body (xs ++ ys)%list s
  = (s' <- for_each body xs s ;; for_each body ys s').
Proof.
  revert s; induction xs as [|x xs IH]; intros s; simpl; [reflexivity|].
  destruct (body s x); simpl; [reflexivity | apply IH].
Qed.

Lemma split_cons (c : ascii) (s : string) :
  exists t ts, split c s = t :: ts.
Proof.
  destruct s as [|a s]; simpl; [eauto|].
  destruct (Ascii.eqb a c); [eauto|]. destruct (split c s); eauto.
Qed.

Lemma base_name_of_well_formed (p : path) :
  well_formed p = true -> base_name_of (stem p) = ok (slot_key p).
Proof.
  unfold well_formed, slot_key, tokens, base_name_of, index.
  intros H. apply Nat.leb_le in H.
  destruct (split "_" (stem p)) as [|t0 [|t1 ts]]; simpl in *; try lia.
  reflexivity.
Qed.

Lemma base_name_of_malformed (p : path) :
  well_formed p = false ->
  base_name_of (stem p) = raise (IndexError "list index out of range").
Proof.
  unfold well_formed, tokens, base_name_of, index.
  intros H. apply Nat.leb_gt in H.
  destruct (split_cons "_" (stem p)) as (t & ts & E). rewrite E in *.
  destruct ts; simpl in *; [reflexivity | lia].
Qed.

(** One step of the scan on a dictionary with the two slots. *)
Lemma scan_step_slots (a b : option path) (p : path) :
  scan_step [("vs_lines", a); ("fs_lines", b)] p
  = if well_formed p
    then ok [("vs_lines", last_match "vs_lines" [p] a);
             ("fs_lines", last_match "fs_lines" [p] b)]
    else raise (IndexError "list index out of range").
Proof.
  unfold scan_step. destruct (well_formed p) eqn:W.
  - rewrite (base_name_of_well_formed p W). cbn [bind ok last_match fold_left].
    cbn [dict_mem]. rewrite (String.eqb_sym (slot_key p) "vs_lines").
    rewrite (String.eqb_sym (slot_key p) "fs_lines").
    destruct (String.eqb_spec "vs_lines" (slot_key p)) as [E|E].
    + rewrite <- E. reflexivity.
    + destruct (String.eqb_spec "fs_lines" (slot_key p)) as [E'|E'].
      * rewrite <- E'. reflexivity.
      * cbn [orb]. reflexivity.
  - now rewrite (base_name_of_malformed p W).
Qed.

(** The whole scan: an index error at the first malformed name, and
    otherwise each slot holds its last match. *)
Lemma scan_slots (ps : list path) (a b : option path) :
  for_each scan_step ps [("vs_lines", a); ("fs_lines", b)]
  = if forallb well_formed ps
    then ok [("vs_lines", last_match "vs_lines" ps a);
             ("fs_lines", last_match "fs_lines" ps b)]
    else raise (IndexError "list index out of range").
Proof.
  revert a b; induction ps as [|p ps IH]; intros a b; [reflexivity|].
  cbn [for_each forallb]. rewrite scan_step_slots.
  destruct (well_formed p); [|reflexivity].
  cbn [bind ok andb]. rewrite IH. reflexivity.
Qed.

Lemma last_match_app (k : string) (ps qs : list path) (acc : option path) :
  last_match k (ps ++ qs)%list acc = last_match k qs (last_match k ps acc).
Proof. apply fold_left_app. Qed.

Lemma last_match_none (k : string) (ps : list path) (acc : option path) :
  (forall q, In q ps -> slot_key q <> k) -> last_match k ps acc = acc.
Proof.
  revert acc; induction ps as [|p ps IH]; intros acc H; [reflexivity|].
  cbn [last_match fold_left].
  destruct (String.eqb_spec (slot_key p) k) as [E|E].
  - exfalso. apply (H p); [now left | exact E].
  - apply IH. intros q Hq. apply H. now right.
Qed.

Lemma last_match_key (k : string) (ps : list path) (acc p : option path) :
  last_match k ps acc = p ->
  p = acc \/ exists q, p = Some q /\ In q ps /\ slot_key q = k.
Proof.
  revert acc; induction ps as [|x ps IH]; intros acc H.
  - left. now symmetry.
  - cbn [last_match fold_left] in H. apply IH in H as [H | (q & -> & Hq & Hk)].
    + destruct (String.eqb_spec (slot_key x) k) as [E|E]; [|now left].
      right. exists x. repeat split; [exact H | now left | exact E].
    + right. exists q. repeat split; [now right | exact Hk].
Qed.

Lemma glob_bin_in (w : world) (input_dir f : string) :
  In f (listdir w input_dir) -> endswith f ".bin" = true ->
  In (mkPath input_dir f) (glob_bin w input_dir).
Proof.
  intros Hin He. unfold glob_bin. apply in_map, filter_In. now split.
Qed.

End Scan.

(** ** Properties of the run *)

(** C9: when [sys.argv] does not hold exactly the program name and two
    arguments, the program prints the usage line to standard output and
    exits with status 1 at once; no output file is written. *)
Theorem usage_error (w : world) (argv : list string) (fx : effects) :
  List.length argv <> 3 ->
  main w argv fx = (raise (SystemExit 1), print usage fx)
  /\ exit_status (fst (main w argv fx)) = 1
  /\ stdout (snd (main w argv fx)) = stdout fx ++ usage ++ nl
  /\ written (snd (main w argv fx)) = written fx.
Proof.
  intros H. apply Nat.eqb_neq in H.
  unfold main. rewrite H. cbn. repeat split; reflexivity.
Qed.

Lemma usage_error_witness :
  let w := mkWorld (fun _ => ["vs_lines_glsl.bin"]) (fun _ => true)
                   (fun _ => Some [x01]) (fun _ => true) in
  List.length ["embed_shaders.py"; "build/shaders"] <> 3
  /\ exit_status (fst (main w ["embed_shaders.py"; "build/shaders"] no_effects)) = 1
  /\ written (snd (main w ["embed_shaders.py"; "build/shaders"] no_effects)) = None.
Proof.
  intros w.
  assert (H : List.length ["embed_shaders.py"; "build/shaders"] <> 3)
    by (simpl; lia).
  split; [exact H|].
  destruct (usage_error w ["embed_shaders.py"; "build/shaders"] no_effects H)
    as (_ & Hs & _ & Hw).
  split; [exact Hs | exact Hw].
Defined.

(** C7: for an empty input directory no file is selected for either
    slot, and the header that is written declares [vs_lines] and then
    [fs_lines], each as the placeholder: an array whose only entry is
    [0x00] and a size constant that is the literal 1. *)
Theorem empty_directory_placeholders (w : world)
  (input_dir output_header : string) (fx : effects) :
  listdir w input_dir = [] ->
  write_ok w output_header = true ->
  for_each scan_step (glob_bin w input_dir) shader_files0
    = ok [("vs_lines", None); ("fs_lines", None)]
  /\ embed_shaders w input_dir output_header fx
     = (ok tt,
        mkEffects
          (Some (output_header,
                 header_preamble
                 ++ "// vs_lines shader (placeholder - not compiled)" ++ nl
                 ++ placeholder_decl "vs_lines"
                 ++ "// fs_lines shader (placeholder - not compiled)" ++ nl
                 ++ placeholder_decl "fs_lines"
                 ++ "} // namespace oscil::shaders" ++ nl))
          (stdout fx ++ "Generated embedded shader header: "
                     ++ output_header ++ nl))
  /\ (forall s, s = "vs_lines" \/ s = "fs_lines" ->
      exists tail,
        read_array_decl ("embedded_" ++ s) (placeholder_decl s)
          = Some (["0x00"], tail)
        /\ decode_all ["0x00"] = Some [x00]
        /\ read_size_decl ("embedded_" ++ s) tail = Some (SizeLiteral 1)
        /\ eval_size [("embedded_" ++ s, 1)] (SizeLiteral 1) = Some 1).
Proof.
  intros Hl Hw.
  assert (Hg : glob_bin w input_dir = []) by (unfold glob_bin; now rewrite Hl).
  split; [now rewrite Hg|].
  split.
  - unfold embed_shaders, header_text. rewrite Hg. cbn [for_each bind ok].
    unfold shader_files0. cbn [for_each embed_step bind ok].
    unfold write_file. rewrite Hw. unfold print. cbn [written stdout ok].
    unfold placeholder, placeholder_decl. rewrite !append_assoc. reflexivity.
  - intros s [-> | ->]; eexists; repeat split; reflexivity.
Qed.

Lemma empty_directory_placeholders_witness :
  let w := mkWorld (fun _ => []) (fun _ => false) (fun _ => None)
                   (fun _ => true) in
  for_each scan_step (glob_bin w "build/shaders") shader_files0
    = ok [("vs_lines", None); ("fs_lines", None)].
Proof.
  intros w.
  exact (proj1 (empty_directory_placeholders w "build/shaders" "Shaders.h"
                  no_effects eq_refl eq_refl)).
Defined.

(** C2, as the code has it: a [.bin] file whose stem has fewer than two
    underscore-separated tokens ends the run with the [IndexError] of the
    token lookup, which does not name the file; nothing is written and
    nothing is printed. *)
Theorem malformed_name_index_error (w : world)
  (input_dir output_header : string) (fx : effects) (f : string) :
  In f (listdir w input_dir) ->
  endswith f ".bin" = true ->
  List.length (split "_" (stem (mkPath input_dir f))) < 2 ->
  embed_shaders w input_dir output_header fx
  = (raise (IndexError "list index out of range"), fx).
Proof.
  intros Hin He Hlen.
  assert (Hf : forallb well_formed (glob_bin w input_dir) = false).
  { destruct (forallb well_formed (glob_bin w input_dir)) eqn:E; [|reflexivity].
    rewrite forallb_forall in E.
    specialize (E _ (glob_bin_in w input_dir f Hin He)).
    unfold well_formed, tokens in E. apply Nat.leb_le in E. lia. }
  unfold embed_shaders, header_text, shader_files0.
  rewrite scan_slots, Hf. reflexivity.
Qed.

Lemma malformed_name_index_error_witness :
  let w := mkWorld (fun _ => ["vs_lines_glsl.bin"; "shader.bin"])
                   (fun _ => true) (fun _ => Some [x01]) (fun _ => true) in
  embed_shaders w "build/shaders" "Shaders.h" no_effects
  = (raise (IndexError "list index out of range"), no_effects).
Proof.
  intros w.
  apply (malformed_name_index_error w "build/shaders" "Shaders.h" no_effects
           "shader.bin").
  - simpl. auto.
  - reflexivity.
  - vm_compute. lia.
Defined.

(** C2, as stated, fails: with [shader.bin] in the input directory the
    run does not raise an [InputFormatError]. *)
Lemma malformed_name_counterexample :
  let w := mkWorld (fun _ => ["shader.bin"]) (fun _ => true)
                   (fun _ => Some [x01]) (fun _ => true) in
  In "shader.bin" (listdir w "build/shaders")
  /\ endswith "shader.bin" ".bin" = true
  /\ List.length (split "_" (stem (mkPath "build/shaders" "shader.bin"))) < 2
  /\ ~ (exists e,
          fst (embed_shaders w "build/shaders" "Shaders.h" no_effects) = inl e
          /\ exn_class e = "InputFormatError").
Proof.
  intros w. split; [simpl; auto|]. split; [reflexivity|].
  split; [vm_compute; lia|].
  intros (e & He & Hc). vm_compute in He. injection He as <-.
  discriminate Hc.
Qed.

Lemma permutation_of_three {A : Type} (a b c : A) (l : list A) :
  Permutation [a; b; c] l ->
  l = [a; b; c] \/ l = [a; c; b] \/ l = [b; a; c]
  \/ l = [b; c; a] \/ l = [c; a; b] \/ l = [c; b; a].
Proof.
  intros H.
  assert (Ha : In a l) by (apply (Permutation_in _ H); now left).
  apply in_split in Ha as (l1 & l2 & ->).
  apply Permutation_cons_app_inv in H.
  apply Permutation_length_2_inv in H.
  destruct l1 as [|x [|y [|z l1]]]; simpl in H; destruct H as [H | H];
    inversion H; subst; simpl; auto 7.
Qed.

(** C6, as the code has it: when the stem of every [.bin] file has at
    least two tokens and several files derive the key of a slot, the slot
    holds one file after the scan, the last of them in enumeration order,
    and the dictionary still has the two slots in their order.  A directory with
    [vs_lines_glsl.bin], [fs_lines_glsl.bin] and [vs_lines_spirv.bin], in
    whatever order it is enumerated, gives one of the two vertex files
    for [vs_lines] and the fragment file for [fs_lines]. *)
Theorem selection_keeps_last (w : world) (input_dir : string) :
  (forall (k : string) (ps1 ps2 : list path) (p : path),
      k = "vs_lines" \/ k = "fs_lines" ->
      glob_bin w input_dir = (ps1 ++ p :: ps2)%list ->
      (forall q, In q (glob_bin w input_dir) ->
         2 <= List.length (split "_" (stem q))) ->
      base_name_of (stem p) = ok k ->
      (forall q, In q ps2 -> base_name_of (stem q) <> ok k) ->
      exists d,
        for_each scan_step (glob_bin w input_dir) shader_files0 = ok d
        /\ map fst d = ["vs_lines"; "fs_lines"]
        /\ dict_get k d = Some (Some p))
  /\ (forall l : list string,
        Permutation
          ["vs_lines_glsl.bin"; "fs_lines_glsl.bin"; "vs_lines_spirv.bin"] l ->
        listdir w input_dir = l ->
        exists v,
          (v = "vs_lines_glsl.bin" \/ v = "vs_lines_spirv.bin")
          /\ for_each scan_step (glob_bin w input_dir) shader_files0
             = ok [("vs_lines", Some (mkPath input_dir v));
                   ("fs_lines", Some (mkPath input_dir "fs_lines_glsl.bin"))]).
Proof.
  split.
  - intros k ps1 ps2 p Hk Hg Hall Hp' Hlast'.
    assert (Hwf : forallb well_formed (glob_bin w input_dir) = true).
    { apply forallb_forall. intros q Hq. apply Nat.leb_le, Hall, Hq. }
    assert (Hp : slot_key p = k).
    { rewrite base_name_of_well_formed in Hp'.
      - now injection Hp'.
      - apply Nat.leb_le, Hall. rewrite Hg. apply in_elt. }
    assert (Hlast : forall q, In q ps2 -> slot_key q <> k).
    { intros q Hq E. apply (Hlast' q Hq).
      rewrite base_name_of_well_formed; [now rewrite E|].
      apply Nat.leb_le, Hall. rewrite Hg. apply in_or_app. right. now right. }
    unfold shader_files0. rewrite scan_slots, Hwf.
    eexists. split; [reflexivity|]. split; [reflexivity|].
    rewrite Hg, !last_match_app.
    assert (E : last_match k (p :: ps2) (last_match k ps1 None) = Some p).
    { cbn [last_match fold_left]. rewrite <- Hp at 1.
      rewrite String.eqb_refl. now apply last_match_none. }
    destruct Hk as [-> | ->]; cbn [dict_get]; simpl String.eqb; cbv iota;
      now rewrite E.
  - intros l Hperm Hl. unfold glob_bin. rewrite Hl.
    apply permutation_of_three in Hperm
      as [-> | [-> | [-> | [-> | [-> | ->]]]]].
    + exists "vs_lines_spirv.bin". split; [now right | reflexivity].
    + exists "vs_lines_spirv.bin". split; [now right | reflexivity].
    + exists "vs_lines_spirv.bin". split; [now right | reflexivity].
    + exists "vs_lines_glsl.bin". split; [now left | reflexivity].
    + exists "vs_lines_glsl.bin". split; [now left | reflexivity].
    + exists "vs_lines_glsl.bin". split; [now left | reflexivity].
Qed.

Lemma selection_keeps_last_witness :
  let w := mkWorld
             (fun _ => ["vs_lines_glsl.bin"; "fs_lines_glsl.bin";
                        "vs_lines_spirv.bin"])
             (fun _ => true) (fun _ => Some [x01]) (fun _ => true) in
  exists d,
    for_each scan_step (glob_bin w "build/shaders") shader_files0 = ok d
    /\ map fst d = ["vs_lines"; "fs_lines"]
    /\ dict_get "vs_lines" d
       = Some (Some (mkPath "build/shaders" "vs_lines_spirv.bin")).
Proof.
  intros w.
  apply (proj1 (selection_keeps_last w "build/shaders") "vs_lines"
           [mkPath "build/shaders" "vs_lines_glsl.bin";
            mkPath "build/shaders" "fs_lines_glsl.bin"]
           []
           (mkPath "build/shaders" "vs_lines_spirv.bin")).
  - now left.
  - reflexivity.
  - intros q [<- | [<- | [<- | []]]]; vm_compute; lia.
  - reflexivity.
  - intros q [].
Defined.

(** C6, as stated, fails: two files derive the key of [vs_lines], and yet
    the scan selects no file for the slot, because a third [.bin] file
    has a stem of one token and the scan ends with its [IndexError]. *)
Lemma selection_malformed_counterexample :
  let w := mkWorld
             (fun _ => ["vs_lines_glsl.bin"; "vs_lines_spirv.bin";
                        "shader.bin"])
             (fun _ => true) (fun _ => Some [x01]) (fun _ => true) in
  base_name_of (stem (mkPath "build/shaders" "vs_lines_glsl.bin"))
    = ok "vs_lines"
  /\ base_name_of (stem (mkPath "build/shaders" "vs_lines_spirv.bin"))
     = ok "vs_lines"
  /\ for_each scan_step (glob_bin w "build/shaders") shader_files0
     = raise (IndexError "list index out of range")
  /\ ~ (exists d,
          for_each scan_step (glob_bin w "build/shaders") shader_files0 = ok d
          /\ dict_get "vs_lines" d
             = Some (Some (mkPath "build/shaders" "vs_lines_spirv.bin"))).
Proof.
  intros w. split; [reflexivity|]. split; [reflexivity|].
  split; [reflexivity|].
  intros (d & Hd & _). vm_compute in Hd. discriminate Hd.
Qed.

(** ** The embedding loop *)

Section Embed.

Variable w : world.


Variable w' : world.

(** The loop asks the file system only about the selected files. *)
Lemma embed_agree (d : dict) (h : string) :
  (forall q, In q (selected d) ->
     exists_ w q = exists_ w' q /\ read_bytes w q = read_bytes w' q) ->
  for_each (embed_step w) d h = for_each (embed_step w') d h.
Proof.
  revert h; induction d as [|[k0 v0] d IH]; intros h H; [reflexivity|].
  cbn [for_each].
  assert (E : embed_step w h (k0, v0) = embed_step w' h (k0, v0)).
  { destruct v0 as [q|]; [|reflexivity].
    destruct (H q) as [E1 E2]; [cbn; now left|].
    cbn. unfold open_rb. now rewrite E1, E2. }
  rewrite E. destruct (embed_step w' h (k0, v0)); [reflexivity|].
  cbn [bind]. apply IH. intros q Hq. apply H.
  unfold selected in *. cbn [flat_map]. apply in_or_app. now right.
Qed.

End Embed.

Lemma slot_key_name (p q : path) : name p = name q -> slot_key p = slot_key q.
Proof. unfold slot_key, tokens, stem. now intros ->. Qed.


(** ** Files of other shaders *)

Section Unrelated.

Variables (w w' : world) (input_dir : string).
Variables (l1 l2 : list string) (f : string).

Let pf : path := mkPath input_dir f.

Hypothesis listing : listdir w input_dir = (l1 ++ f :: l2)%list.
Hypothesis listing' : listdir w' input_dir = (l1 ++ l2)%list.
Hypothesis is_bin : endswith f ".bin" = true.
Hypothesis two_tokens : well_formed pf = true.
Hypothesis not_vs : slot_key pf <> "vs_lines".
Hypothesis not_fs : slot_key pf <> "fs_lines".

Lemma glob_bin_with :
  exists g1 g2,
    glob_bin w input_dir = (g1 ++ pf :: g2)%list
    /\ glob_bin w' input_dir = (g1 ++ g2)%list.
Proof.
  exists (map (mkPath input_dir) (filter (fun n => endswith n ".bin") l1)),
         (map (mkPath input_dir) (filter (fun n => endswith n ".bin") l2)).
  unfold glob_bin. rewrite listing, listing', !filter_app. cbn [filter].
  rewrite is_bin, !map_app. split; reflexivity.
Qed.

Lemma last_match_skip (k : string) (g1 g2 : list path) :
  slot_key pf <> k ->
  last_match k (g1 ++ pf :: g2) None = last_match k (g1 ++ g2) None.
Proof.
  intros H. rewrite !last_match_app. cbn [last_match fold_left].
  apply String.eqb_neq in H. now rewrite H.
Qed.

Lemma scan_without :
  for_each scan_step (glob_bin w input_dir) shader_files0
  = for_each scan_step (glob_bin w' input_dir) shader_files0.
Proof.
  destruct glob_bin_with as (g1 & g2 & -> & ->).
  unfold shader_files0. rewrite !scan_slots, !forallb_app. cbn [forallb].
  rewrite two_tokens. cbn [andb].
  now rewrite !last_match_skip by assumption.
Qed.

Lemma scan_selected (d : dict) (q : path) :
  for_each scan_step (glob_bin w' input_dir) shader_files0 = ok d ->
  In q (selected d) -> name q <> f.
Proof.
  unfold shader_files0. rewrite scan_slots.
  destruct (forallb well_formed (glob_bin w' input_dir)); [|discriminate].
  intros E. injection E as <-. unfold selected. cbn [flat_map snd].
  rewrite app_nil_r. intros Hq Hn.
  assert (Hk : slot_key q = slot_key pf) by (apply slot_key_name; exact Hn).
  apply in_app_or in Hq as [Hq | Hq].
  - destruct (last_match_key "vs_lines" (glob_bin w' input_dir) None _ eq_refl)
      as [E | (q' & E & _ & Hq')]; rewrite E in Hq; cbn in Hq.
    + destruct Hq.
    + destruct Hq as [<- | []]. congruence.
  - destruct (last_match_key "fs_lines" (glob_bin w' input_dir) None _ eq_refl)
      as [E | (q' & E & _ & Hq')]; rewrite E in Hq; cbn in Hq.
    + destruct Hq.
    + destruct Hq as [<- | []]. congruence.
Qed.

Hypothesis same_files :
  forall p, name p <> f ->
    exists_ w p = exists_ w' p /\ read_bytes w p = read_bytes w' p.

Lemma header_text_without : header_text w input_dir = header_text w' input_dir.
Proof.
  unfold header_text. rewrite scan_without.
  destruct (for_each scan_step (glob_bin w' input_dir) shader_files0)
    as [e|d] eqn:E; [reflexivity|].
  cbn [bind]. rewrite (embed_agree w w' d header_preamble); [reflexivity|].
  intros q Hq. apply same_files. now apply (scan_selected d).
Qed.

End Unrelated.

(** C10: a [.bin] file whose stem has at least two tokens and whose slot
    key is neither [vs_lines] nor [fs_lines] leaves the dictionary as it
    is, so it raises nothing, and the whole run (the exception if any,
    the file written, the text printed) is the one of the same directory
    without that file. *)
Theorem unrelated_file_ignored (w w' : world)
  (input_dir output_header : string) (fx : effects)
  (l1 l2 : list string) (f k : string) :
  listdir w input_dir = (l1 ++ f :: l2)%list ->
  listdir w' input_dir = (l1 ++ l2)%list ->
  endswith f ".bin" = true ->
  2 <= List.length (split "_" (stem (mkPath input_dir f))) ->
  base_name_of (stem (mkPath input_dir f)) = ok k ->
  k <> "vs_lines" -> k <> "fs_lines" ->
  (forall p, name p <> f ->
     exists_ w p = exists_ w' p /\ read_bytes w p = read_bytes w' p) ->
  write_ok w output_header = write_ok w' output_header ->
  (forall a b,
     scan_step [("vs_lines", a); ("fs_lines", b)] (mkPath input_dir f)
     = ok [("vs_lines", a); ("fs_lines", b)])
  /\ embed_shaders w input_dir output_header fx
     = embed_shaders w' input_dir output_header fx.
Proof.
  intros Hl Hl' Hbin Htok Hk Hvs Hfs Hsame Hw.
  assert (Hwf : well_formed (mkPath input_dir f) = true)
    by (apply Nat.leb_le; exact Htok).
  rewrite (base_name_of_well_formed _ Hwf) in Hk. injection Hk as <-.
  split.
  - intros a b. rewrite scan_step_slots, Hwf. cbn [last_match fold_left].
    apply String.eqb_neq in Hvs, Hfs. now rewrite Hvs, Hfs.
  - unfold embed_shaders.
    rewrite (header_text_without w w' input_dir l1 l2 f Hl Hl' Hbin Hwf
               Hvs Hfs Hsame).
    destruct (header_text w' input_dir); [reflexivity|].
    unfold write_file. now rewrite Hw.
Qed.

Lemma unrelated_file_ignored_witness :
  let exists_in := fun p : path => String.eqb (name p) "vs_lines_glsl.bin" in
  let content := fun p : path =>
    if String.eqb (name p) "vs_lines_glsl.bin" then Some [x01; x02; x03]
    else None in
  let w := mkWorld (fun _ => ["vs_lines_glsl.bin"; "ps_fill_glsl.bin"])
                   (fun p => exists_in p || String.eqb (name p) "ps_fill_glsl.bin")
                   content (fun _ => true) in
  let w' := mkWorld (fun _ => ["vs_lines_glsl.bin"]) exists_in content
                    (fun _ => true) in
  embed_shaders w "build/shaders" "Shaders.h" no_effects
  = embed_shaders w' "build/shaders" "Shaders.h" no_effects.
Proof.
  intros exists_in content w w'.
  apply (unrelated_file_ignored w w' "build/shaders" "Shaders.h" no_effects
           ["vs_lines_glsl.bin"] [] "ps_fill_glsl.bin" "ps_fill").
  - reflexivity.
  - reflexivity.
  - reflexivity.
  - vm_compute. lia.
  - reflexivity.
  - discriminate.
  - discriminate.
  - intros p Hp. split; [|reflexivity].
    cbn [exists_ w w']. apply String.eqb_neq in Hp. rewrite Hp.
    now rewrite orb_false_r.
  - reflexivity.
Defined.

(** ** Further properties of the run *)

Section RunOutcomes.

Variable w : world.

(** An exception of the embedding loop is the [OSError] of a selected
    file that exists and cannot be read. *)
Lemma embed_error (d : dict) (h : string) (e : exn) :
  for_each (embed_step w) d h = inl e ->
  exists q,
    In q (selected d) /\ exists_ w q = true /\ read_bytes w q = None
    /\ e = OSError (path_str q).
Proof.
  revert h; induction d as [|[k0 v0] d IH]; intros h H; [discriminate H|].
  cbn [for_each] in H.
  destruct (embed_step w h (k0, v0)) as [e0|h'] eqn:Es.
  - cbn in H. injection H as ->.
    destruct v0 as [q|]; [|discriminate Es]. cbn in Es.
    destruct (exists_ w q) eqn:Eq; [|discriminate Es].
    unfold open_rb in Es. destruct (read_bytes w q) eqn:Er; [discriminate Es|].
    cbn in Es. injection Es as <-.
    exists q. repeat split; try assumption. cbn. now left.
  - cbn [bind] in H. destruct (IH h' H) as (q & Hsel & Hq).
    exists q. split; [|exact Hq].
    unfold selected in *. cbn [flat_map]. apply in_or_app. now right.
Qed.

(** What the scan selects comes from the directory. *)
Lemma scan_selected_in (input_dir : string) (d : dict) (q : path) :
  for_each scan_step (glob_bin w input_dir) shader_files0 = ok d ->
  In q (selected d) ->
  In q (glob_bin w input_dir)
  /\ (base_name_of (stem q) = ok "vs_lines"
      \/ base_name_of (stem q) = ok "fs_lines").
Proof.
  unfold shader_files0. rewrite scan_slots.
  destruct (forallb well_formed (glob_bin w input_dir)) eqn:Hwf; [|discriminate].
  intros E. injection E as <-. unfold selected. cbn [flat_map snd].
  rewrite app_nil_r. intros Hq.
  rewrite forallb_forall in Hwf.
  apply in_app_or in Hq as [Hq | Hq].
  - destruct (last_match_key "vs_lines" (glob_bin w input_dir) None _ eq_refl)
      as [E | (q' & E & Hin & Hk)]; rewrite E in Hq; cbn in Hq.
    + destruct Hq.
    + destruct Hq as [<- | []]. split; [exact Hin|]. left.
      now rewrite (base_name_of_well_formed _ (Hwf _ Hin)), Hk.
  - destruct (last_match_key "fs_lines" (glob_bin w input_dir) None _ eq_refl)
      as [E | (q' & E & Hin & Hk)]; rewrite E in Hq; cbn in Hq.
    + destruct Hq.
    + destruct Hq as [<- | []]. split; [exact Hin|]. right.
      now rewrite (base_name_of_well_formed _ (Hwf _ Hin)), Hk.
Qed.

Lemma header_text_error (input_dir : string) (e : exn) :
  header_text w input_dir = inl e ->
  e = IndexError "list index out of range"
  \/ exists q,
       In q (glob_bin w input_dir) /\ exists_ w q = true
       /\ read_bytes w q = None /\ e = OSError (path_str q).
Proof.
  unfold header_text.
  destruct (for_each scan_step (glob_bin w input_dir) shader_files0)
    as [e0|d] eqn:Es.
  - cbn. intros E. injection E as <-. left.
    unfold shader_files0 in Es. rewrite scan_slots in Es.
    destruct (forallb well_formed (glob_bin w input_dir)); [discriminate Es|].
    now injection Es.
  - cbn [bind].
    destruct (for_each (embed_step w) d header_preamble) as [e1|h] eqn:Ee;
      [|discriminate].
    cbn. intros E. injection E as <-. right.
    destruct (embed_error d header_preamble e1 Ee) as (q & Hsel & Hq & Hr & ->).
    exists q. repeat split; try assumption.
    now apply (scan_selected_in input_dir d).
Qed.

End RunOutcomes.

(** X1: when the scan or the reading of a selected file raises, the
    exception leaves [embed_shaders] before the output path is opened:
    no file is written, nothing is printed, and the exception is the
    [IndexError] of the token lookup or the [OSError] of a [.bin] file of
    the directory that exists and cannot be read. *)
Theorem failure_before_write (w : world) (input_dir output_header : string)
  (fx : effects) (e : exn) :
  header_text w input_dir = inl e ->
  embed_shaders w input_dir output_header fx = (raise e, fx)
  /\ (e = IndexError "list index out of range"
      \/ exists q,
           In q (glob_bin w input_dir) /\ exists_ w q = true
           /\ read_bytes w q = None /\ e = OSError (path_str q)).
Proof.
  intros Eh. split.
  - unfold embed_shaders. now rewrite Eh.
  - exact (header_text_error w input_dir e Eh).
Qed.

Lemma failure_before_write_witness :
  let w := mkWorld (fun _ => ["vs_lines_glsl.bin"]) (fun _ => true)
                   (fun _ => None) (fun _ => true) in
  embed_shaders w "./build//shaders/" "Shaders.h" no_effects
  = (raise (OSError "build/shaders/vs_lines_glsl.bin"), no_effects).
Proof.
  intros w.
  exact (proj1 (failure_before_write w "./build//shaders/" "Shaders.h"
                  no_effects
                  (OSError "build/shaders/vs_lines_glsl.bin") eq_refl)).
Defined.

(** X2: with the program name and two arguments, an exit status of 0
    means that the header text was built, that it is the content written
    to the second argument, and that the confirmation was printed; and
    when the header text cannot be built, or the output path cannot be
    opened, the exit status is 1 and the run has had no effect. *)
Theorem exit_status_of_run (w : world) (prog input_dir output_header : string)
  (fx : effects) :
  let r := main w [prog; input_dir; output_header] fx in
  (exit_status (fst r) = 0 ->
   exists h,
     header_text w input_dir = ok h
     /\ snd r = mkEffects (Some (output_header, h))
                          (stdout fx ++ confirmation output_header))
  /\ ((exists e, header_text w input_dir = inl e)
      \/ write_ok w output_header = false ->
      exit_status (fst r) = 1 /\ snd r = fx).
Proof.
  cbn. unfold embed_shaders, write_file.
  destruct (header_text w input_dir) as [e|h] eqn:Eh.
  - assert (Hs : exit_status (inl e) = 1)
      by (destruct (header_text_error w input_dir e Eh)
            as [-> | (q & _ & _ & _ & ->)]; reflexivity).
    cbn [fst snd]. split.
    + rewrite Hs. discriminate.
    + intros _. split; [exact Hs | reflexivity].
  - destruct (write_ok w output_header) eqn:Ew; cbn; split.
    + intros _. exists h. split; reflexivity.
    + intros [(e & He) | Hf]; discriminate.
    + discriminate.
    + intros _. split; reflexivity.
Qed.

Lemma exit_status_of_run_witness :
  let w := mkWorld (fun _ => []) (fun _ => false) (fun _ => None)
                   (fun _ => true) in
  exists h,
    header_text w "build/shaders" = ok h
    /\ written (snd (main w ["embed_shaders.py"; "build/shaders"; "Shaders.h"]
                         no_effects))
       = Some ("Shaders.h", h).
Proof.
  intros w.
  destruct (proj1 (exit_status_of_run w "embed_shaders.py" "build/shaders"
                     "Shaders.h" no_effects) eq_refl) as (h & Hh & Hr).
  exists h. split; [exact Hh|].
  exact (f_equal written Hr).
Defined.

(** X3: when the output path cannot be opened for writing the run always
    fails, whatever the directory holds, and has no effect. *)
Theorem unwritable_output_fails (w : world) (input_dir output_header : string)
  (fx : effects) :
  write_ok w output_header = false ->
  exists e,
    embed_shaders w input_dir output_header fx = (raise e, fx)
    /\ (header_text w input_dir = inl e
        \/ ((exists h, header_text w input_dir = ok h)
            /\ e = OSError output_header)).
Proof.
  intros Hw. unfold embed_shaders, write_file. rewrite Hw.
  destruct (header_text w input_dir) as [e|h].
  - exists e. split; [reflexivity | now left].
  - exists (OSError output_header). split; [reflexivity|].
    right. split; [now exists h | reflexivity].
Qed.

Lemma unwritable_output_fails_witness :
  let w := mkWorld (fun _ => ["vs_lines_glsl.bin"]) (fun _ => true)
                   (fun _ => Some [x01]) (fun _ => false) in
  exists e,
    embed_shaders w "build/shaders" "/nowhere/Shaders.h" no_effects
    = (raise e, no_effects).
Proof.
  intros w.
  destruct (unwritable_output_fails w "build/shaders" "/nowhere/Shaders.h"
              no_effects eq_refl) as (e & H & _).
  exists e. exact H.
Defined.

(** ** The shape of the header *)

Section HeaderShape.

Variable w : world.

Lemma consistent_array (k : string) (data : bytes) :
  consistent_decl k (bytes_to_cpp_array data ("embedded_" ++ k)).
Proof.
  exists (map hex_literal data), (size_decl_text ("embedded_" ++ k)),
         (SizeofArray ("embedded_" ++ k)).
  split; [apply read_array_decl_ok|].
  split; [rewrite decode_all_literals; discriminate|].
  split; [apply read_size_decl_ok|].
  cbn [eval_size]. now rewrite String.eqb_refl.
Qed.

Lemma consistent_placeholder (k : string) :
  k = "vs_lines" \/ k = "fs_lines" -> consistent_decl k (placeholder_decl k).
Proof.
  intros [-> | ->]; exists ["0x00"]; do 2 eexists;
    (split; [reflexivity|]); (split; [discriminate|]);
    split; reflexivity.
Qed.

Lemma placeholder_section (h k : string) :
  placeholder h k
  = h ++ slot_section k "placeholder - not compiled" (placeholder_decl k).
Proof.
  unfold placeholder, slot_section, placeholder_decl.
  rewrite !append_assoc. reflexivity.
Qed.

(** One step of the embedding loop appends a section for its slot. *)
Lemma embed_step_section (h h' k : string) (v : option path) :
  k = "vs_lines" \/ k = "fs_lines" ->
  embed_step w h (k, v) = ok h' ->
  exists note decl,
    h' = h ++ slot_section k note decl /\ consistent_decl k decl.
Proof.
  intros Hk H.
  assert (Hp : ok (placeholder h k) = ok h' ->
    exists note decl,
      h' = h ++ slot_section k note decl /\ consistent_decl k decl).
  { intros E. injection E as <-.
    exists "placeholder - not compiled", (placeholder_decl k).
    split; [apply placeholder_section | now apply consistent_placeholder]. }
  destruct v as [p|]; unfold embed_step in H; [|now apply Hp].
  destruct (exists_ w p); [|now apply Hp].
  clear Hp. unfold open_rb in H.
  destruct (read_bytes w p) as [data|]; [|discriminate H].
  cbn [bind ok] in H. injection H as <-.
  exists (str_of_nat (List.length data) ++ " bytes"),
         (bytes_to_cpp_array data ("embedded_" ++ k)).
  split; [|apply consistent_array].
  unfold slot_section.
  repeat first [rewrite !append_assoc | progress cbn [append]]. reflexivity.
Qed.

End HeaderShape.

(** X4: whenever the header text is built, it is the preamble, a section
    for [vs_lines], a section for [fs_lines] and the closing line, in
    that order; each section is a comment line followed by the array and
    the size constant of its slot, and the size constant evaluates to the
    number of entries of the array. *)
Theorem header_declares_both_slots (w : world) (input_dir h : string) :
  header_text w input_dir = ok h ->
  exists note1 decl1 note2 decl2,
    h = header_preamble
        ++ slot_section "vs_lines" note1 decl1
        ++ slot_section "fs_lines" note2 decl2
        ++ "} // namespace oscil::shaders" ++ nl
    /\ consistent_decl "vs_lines" decl1
    /\ consistent_decl "fs_lines" decl2.
Proof.
  unfold header_text, shader_files0. rewrite scan_slots.
  destruct (forallb well_formed (glob_bin w input_dir)); [|discriminate].
  cbn [bind ok for_each].
  destruct (embed_step w header_preamble
              ("vs_lines", last_match "vs_lines" (glob_bin w input_dir) None))
    as [e1|h1] eqn:E1; [discriminate|].
  cbn [bind].
  destruct (embed_step w h1
              ("fs_lines", last_match "fs_lines" (glob_bin w input_dir) None))
    as [e2|h2] eqn:E2; [discriminate|].
  cbn [bind]. intros E. injection E as <-.
  destruct (embed_step_section w _ _ _ _ (or_introl eq_refl) E1)
    as (n1 & d1 & -> & C1).
  destruct (embed_step_section w _ _ _ _ (or_intror eq_refl) E2)
    as (n2 & d2 & -> & C2).
  exists n1, d1, n2, d2. split; [|split; assumption].
  now rewrite !append_assoc.
Qed.

Lemma header_declares_both_slots_witness :
  let w := mkWorld (fun _ => ["vs_lines_glsl.bin"]) (fun _ => true)
                   (fun _ => Some [x01; x02; x03]) (fun _ => true) in
  exists h note1 decl1 note2 decl2,
    header_text w "build/shaders" = ok h
    /\ h = header_preamble
           ++ slot_section "vs_lines" note1 decl1
           ++ slot_section "fs_lines" note2 decl2
           ++ "} // namespace oscil::shaders" ++ nl.
Proof.
  intros w.
  destruct (header_declares_both_slots w "build/shaders" _ eq_refl)
    as (n1 & d1 & n2 & d2 & H & _).
  eexists. exists n1, d1, n2, d2. split; [reflexivity | exact H].
Defined.

(** X5: the serialization is injective: two byte sequences with the same
    declaration under a name are the same sequence. *)
Theorem serialization_injective (data data' : bytes) (var_name : string) :
  bytes_to_cpp_array data var_name = bytes_to_cpp_array data' var_name ->
  data = data'.
Proof.
  intros H.
  assert (E : Some (map hex_literal data, size_decl_text var_name)
              = Some (map hex_literal data', size_decl_text var_name)).
  { rewrite <- !read_array_decl_ok. now rewrite H. }
  injection E as E.
  assert (D : Some data = Some data').
  { rewrite <- !decode_all_literals. now rewrite E. }
  now injection D.
Qed.

Lemma serialization_injective_witness :
  [x01; xff] = [x01; xff] :> bytes.
Proof.
  exact (serialization_injective [x01; xff] [x01; xff] "embedded_vs_lines"
           eq_refl).
Defined.

Lemma newlines_literals (r : bytes) :
  count_char (ascii_of_nat 10) (String.concat ", " (map hex_literal r)) = 0.
Proof.
  apply literals_lack; [|reflexivity].
  intros b. destruct b; vm_compute; reflexivity.
Qed.

Lemma newlines_row_line (r : bytes) (last : bool) :
  count_char (ascii_of_nat 10) (row_line r last) = 1.
Proof.
  unfold row_line. rewrite !count_char_app, newlines_literals.
  destruct last; reflexivity.
Qed.

Lemma newlines_render_rows (rs : list bytes) :
  count_char (ascii_of_nat 10) (render_rows rs) = List.length rs.
Proof.
  induction rs as [|r rs IH]; [reflexivity|].
  destruct rs as [|r' rs]; [apply newlines_row_line|].
  change (render_rows (r :: r' :: rs))
    with (row_line r false ++ render_rows (r' :: rs)).
  rewrite count_char_app, newlines_row_line, IH. reflexivity.
Qed.

Lemma range_from_length (start step count : nat) :
  List.length (range_from start step count) = count.
Proof.
  revert start; induction count as [|c IH]; intros start; simpl;
    [reflexivity | now rewrite IH].
Qed.

(** X6: between the opening line and the closing brace the declaration
    has one line for every sixteen bytes begun: [len(data)] divided by
    sixteen, rounded up. *)
Theorem array_body_line_count (data : bytes) (var_name : string) :
  exists body : string,
    bytes_to_cpp_array data var_name
    = decl_open var_name ++ body ++ decl_close var_name
    /\ count_char (ascii_of_nat 10) body = (List.length data + 15) / 16.
Proof.
  exists (render_rows (rows data)). split; [apply bytes_to_cpp_array_rows|].
  rewrite newlines_render_rows. unfold rows, rows_from.
  rewrite length_map, range_from_length. f_equal. lia.
Qed.

(** ** What the scan selects *)

Section Selection.

Lemma last_match_some (k : string) (ps : list path) (acc : option path)
  (q : path) :
  In q ps -> slot_key q = k -> exists p, last_match k ps acc = Some p.
Proof.
  revert acc; induction ps as [|x ps IH]; intros acc Hin Hk; [destruct Hin|].
  cbn [last_match fold_left]. destruct Hin as [-> | Hin].
  - rewrite (proj2 (String.eqb_eq _ _) Hk).
    destruct (last_match_key k ps (Some q) _ eq_refl)
      as [E | (p & E & _)]; eauto.
  - now apply IH.
Qed.

Lemma glob_bin_name (w : world) (input_dir : string) (q : path) :
  In q (glob_bin w input_dir) ->
  In (name q) (listdir w input_dir) /\ endswith (name q) ".bin" = true
  /\ parent q = input_dir.
Proof.
  unfold glob_bin. intros H. apply in_map_iff in H as (n & <- & Hn).
  apply filter_In in Hn as [Hn He]. now repeat split.
Qed.

Lemma well_formed_all (ps : list path) :
  forallb well_formed ps = true
  <-> forall q, In q ps -> 2 <= List.length (split "_" (stem q)).
Proof.
  rewrite forallb_forall. split; intros H q Hq.
  - apply Nat.leb_le. now apply H.
  - apply Nat.leb_le. now apply H.
Qed.

End Selection.

(** X7: the scan succeeds exactly when the stem of every [.bin] file of
    the directory has at least two underscore-separated tokens. *)
Theorem scan_succeeds_iff_well_formed (w : world) (input_dir : string) :
  (exists d, for_each scan_step (glob_bin w input_dir) shader_files0 = ok d)
  <-> (forall f, In f (listdir w input_dir) -> endswith f ".bin" = true ->
         2 <= List.length (split "_" (stem (mkPath input_dir f)))).
Proof.
  unfold shader_files0. rewrite scan_slots. split.
  - intros (d & H) f Hin He.
    destruct (forallb well_formed (glob_bin w input_dir)) eqn:Hwf;
      [|discriminate H].
    apply (proj1 (well_formed_all _) Hwf). now apply glob_bin_in.
  - intros H.
    assert (Hwf : forallb well_formed (glob_bin w input_dir) = true).
    { apply well_formed_all. intros q Hq.
      destruct (glob_bin_name w input_dir q Hq) as (Hin & He & Hp).
      destruct q as [d n]. cbn in *. subst d. now apply H. }
    rewrite Hwf. eauto.
Qed.

(** X8: after a successful scan the dictionary still has the two slots in
    their order; a slot holds a file only if that file is a [.bin] file
    of the directory whose first two tokens give the slot's name, and a
    slot is empty only if the directory has no such file. *)
Theorem selection_sound_and_complete (w : world) (input_dir : string)
  (d : dict) :
  for_each scan_step (glob_bin w input_dir) shader_files0 = ok d ->
  map fst d = ["vs_lines"; "fs_lines"]
  /\ (forall k p, In (k, Some p) d ->
        In (name p) (listdir w input_dir) /\ endswith (name p) ".bin" = true
        /\ parent p = input_dir /\ base_name_of (stem p) = ok k)
  /\ (forall k, In (k, None) d ->
        forall f, In f (listdir w input_dir) -> endswith f ".bin" = true ->
          base_name_of (stem (mkPath input_dir f)) <> ok k).
Proof.
  unfold shader_files0. rewrite scan_slots.
  destruct (forallb well_formed (glob_bin w input_dir)) eqn:Hwf; [|discriminate].
  intros E. injection E as <-.
  rewrite forallb_forall in Hwf.
  split; [reflexivity|]. split.
  - intros k p Hin.
    assert (H : In p (glob_bin w input_dir) /\ slot_key p = k).
    { destruct Hin as [E | [E | []]]; injection E as <- E;
        destruct (last_match_key _ _ _ _ E) as [? | (q & Eq & Hq & Hk)];
        try discriminate; injection Eq as ->; now split. }
    destruct H as [Hg Hk].
    destruct (glob_bin_name w input_dir p Hg) as (H1 & H2 & H3).
    repeat split; try assumption.
    now rewrite (base_name_of_well_formed _ (Hwf _ Hg)), Hk.
  - intros k Hin f Hf He Hb.
    assert (Hg := glob_bin_in w input_dir f Hf He).
    rewrite (base_name_of_well_formed _ (Hwf _ Hg)) in Hb.
    injection Hb as Hb.
    assert (H : last_match k (glob_bin w input_dir) None = None).
    { destruct Hin as [E | [E | []]]; injection E as <- E; exact E. }
    destruct (last_match_some k _ None _ Hg Hb) as (p & Hp).
    congruence.
Qed.

Lemma selection_sound_and_complete_witness :
  let w := mkWorld (fun _ => ["vs_lines_glsl.bin"; "notes.txt"])
                   (fun _ => true) (fun _ => Some [x01]) (fun _ => true) in
  map fst [("vs_lines", Some (mkPath "build/shaders" "vs_lines_glsl.bin"));
           ("fs_lines", None)]
  = ["vs_lines"; "fs_lines"].
Proof.
  intros w.
  exact (proj1 (selection_sound_and_complete w "build/shaders" _ eq_refl)).
Defined.

(** X9: an entry of the directory whose name does not end in [.bin] is
    never looked at: the run is the one of the same directory without
    it, whatever the entry's name is. *)
Theorem other_extension_ignored (w w' : world)
  (input_dir output_header : string) (fx : effects)
  (l1 l2 : list string) (f : string) :
  listdir w input_dir = (l1 ++ f :: l2)%list ->
  listdir w' input_dir = (l1 ++ l2)%list ->
  endswith f ".bin" = false ->
  (forall p, name p <> f ->
     exists_ w p = exists_ w' p /\ read_bytes w p = read_bytes w' p) ->
  write_ok w output_header = write_ok w' output_header ->
  glob_bin w input_dir = glob_bin w' input_dir
  /\ embed_shaders w input_dir output_header fx
     = embed_shaders w' input_dir output_header fx.
Proof.
  intros Hl Hl' He Hsame Hw.
  assert (Hg : glob_bin w input_dir = glob_bin w' input_dir).
  { unfold glob_bin. rewrite Hl, Hl', !filter_app. cbn [filter].
    now rewrite He. }
  split; [exact Hg|].
  assert (Hh : header_text w input_dir = header_text w' input_dir).
  { unfold header_text. rewrite <- Hg.
    destruct (for_each scan_step (glob_bin w input_dir) shader_files0)
      as [e|d] eqn:Es; [reflexivity|].
    cbn [bind]. rewrite (embed_agree w w' d header_preamble); [reflexivity|].
    intros q Hq. apply Hsame. intros Hn.
    destruct (scan_selected_in w input_dir d q Es Hq) as [Hin _].
    destruct (glob_bin_name w input_dir q Hin) as (_ & Hb & _).
    congruence. }
  unfold embed_shaders, write_file. now rewrite Hh, Hw.
Qed.

Lemma other_extension_ignored_witness :
  let w := mkWorld (fun _ => ["vs_lines_glsl.bin"; "shader"])
                   (fun _ => true) (fun _ => Some [x01]) (fun _ => true) in
  let w' := mkWorld (fun _ => ["vs_lines_glsl.bin"])
                    (fun _ => true) (fun _ => Some [x01]) (fun _ => true) in
  embed_shaders w "build/shaders" "Shaders.h" no_effects
  = embed_shaders w' "build/shaders" "Shaders.h" no_effects.
Proof.
  intros w w'.
  apply (other_extension_ignored w w' "build/shaders" "Shaders.h" no_effects
           ["vs_lines_glsl.bin"] [] "shader").
  - reflexivity.
  - reflexivity.
  - reflexivity.
  - intros p _. split; reflexivity.
  - reflexivity.
Defined.

(** ** Enumeration order *)

Section Order.

Variables (ps ps' : list path).
Hypothesis same_files : forall q, In q ps <-> In q ps'.

Lemma well_formed_same : forallb well_formed ps = forallb well_formed ps'.
Proof.
  destruct (forallb well_formed ps) eqn:E, (forallb well_formed ps') eqn:E';
    try reflexivity; rewrite forallb_forall in *.
  - rewrite <- E'. symmetry. apply forallb_forall.
    intros q Hq. apply E, same_files, Hq.
  - rewrite <- E. apply forallb_forall.
    intros q Hq. apply E', same_files, Hq.
Qed.

Lemma last_match_same (k : string) :
  (forall p q, In p ps -> In q ps -> slot_key p = k -> slot_key q = k -> p = q) ->
  last_match k ps None = last_match k ps' None.
Proof.
  intros Huniq.
  destruct (last_match_key k ps None _ eq_refl) as [E | (p & E & Hp & Hk)];
    destruct (last_match_key k ps' None _ eq_refl)
      as [E' | (p' & E' & Hp' & Hk')]; rewrite E, E'; try reflexivity.
  - apply same_files in Hp'.
    destruct (last_match_some k ps None p' Hp' Hk') as (x & Hx). congruence.
  - apply same_files in Hp.
    destruct (last_match_some k ps' None p Hp Hk) as (x & Hx). congruence.
  - f_equal. apply Huniq; try assumption. now apply same_files.
Qed.

End Order.

(** X10: when no slot has two candidates in the directory, the run does
    not depend on the order in which the directory is enumerated. *)
Theorem enumeration_order_irrelevant (w w' : world)
  (input_dir output_header : string) (fx : effects) :
  Permutation (listdir w input_dir) (listdir w' input_dir) ->
  (forall k f g,
     In f (listdir w input_dir) -> In g (listdir w input_dir) ->
     endswith f ".bin" = true -> endswith g ".bin" = true ->
     base_name_of (stem (mkPath input_dir f)) = ok k ->
     base_name_of (stem (mkPath input_dir g)) = ok k ->
     k = "vs_lines" \/ k = "fs_lines" -> f = g) ->
  (forall p, exists_ w p = exists_ w' p /\ read_bytes w p = read_bytes w' p) ->
  write_ok w output_header = write_ok w' output_header ->
  embed_shaders w input_dir output_header fx
  = embed_shaders w' input_dir output_header fx.
Proof.
  intros Hperm Huniq Hsame Hw.
  assert (Hin : forall q, In q (glob_bin w input_dir)
                          <-> In q (glob_bin w' input_dir)).
  { intros q. unfold glob_bin. rewrite !in_map_iff.
    split; intros (n & <- & Hn); exists n; (split; [reflexivity|]);
      apply filter_In in Hn as [Hn He]; apply filter_In; (split; [|exact He]).
    - exact (Permutation_in _ Hperm Hn).
    - exact (Permutation_in _ (Permutation_sym Hperm) Hn). }
  assert (Hscan : for_each scan_step (glob_bin w input_dir) shader_files0
                  = for_each scan_step (glob_bin w' input_dir) shader_files0).
  { unfold shader_files0. rewrite !scan_slots.
    rewrite <- (well_formed_same _ _ Hin).
    destruct (forallb well_formed (glob_bin w input_dir)) eqn:Hwf;
      [|reflexivity].
    rewrite forallb_forall in Hwf.
    assert (Hu : forall k, k = "vs_lines" \/ k = "fs_lines" ->
      forall p q, In p (glob_bin w input_dir) -> In q (glob_bin w input_dir) ->
        slot_key p = k -> slot_key q = k -> p = q).
    { intros k Hk p q Hp Hq Kp Kq.
      destruct (glob_bin_name w input_dir p Hp) as (Hp1 & Hp2 & Hp3).
      destruct (glob_bin_name w input_dir q Hq) as (Hq1 & Hq2 & Hq3).
      assert (Bp := base_name_of_well_formed _ (Hwf _ Hp)).
      assert (Bq := base_name_of_well_formed _ (Hwf _ Hq)).
      rewrite Kp in Bp. rewrite Kq in Bq.
      destruct p as [dp np], q as [dq nq]. cbn in *. subst dp dq.
      f_equal. exact (Huniq k np nq Hp1 Hq1 Hp2 Hq2 Bp Bq Hk). }
    rewrite (last_match_same _ _ Hin "vs_lines" (Hu _ (or_introl eq_refl))).
    rewrite (last_match_same _ _ Hin "fs_lines" (Hu _ (or_intror eq_refl))).
    reflexivity. }
  assert (Hh : header_text w input_dir = header_text w' input_dir).
  { unfold header_text. rewrite <- Hscan.
    destruct (for_each scan_step (glob_bin w input_dir) shader_files0)
      as [e|d]; [reflexivity|].
    cbn [bind]. rewrite (embed_agree w w' d header_preamble); [reflexivity|].
    intros q _. apply Hsame. }
  unfold embed_shaders, write_file. now rewrite Hh, Hw.
Qed.

Lemma enumeration_order_irrelevant_witness :
  let w := mkWorld (fun _ => ["vs_lines_glsl.bin"; "fs_lines_glsl.bin"])
                   (fun _ => true) (fun _ => Some [x01]) (fun _ => true) in
  let w' := mkWorld (fun _ => ["fs_lines_glsl.bin"; "vs_lines_glsl.bin"])
                    (fun _ => true) (fun _ => Some [x01]) (fun _ => true) in
  embed_shaders w "build/shaders" "Shaders.h" no_effects
  = embed_shaders w' "build/shaders" "Shaders.h" no_effects.
Proof.
  intros w w'.
  apply (enumeration_order_irrelevant w w' "build/shaders" "Shaders.h"
           no_effects).
  - apply perm_swap.
  - intros k f g [<- | [<- | []]] [<- | [<- | []]] _ _ Hf Hg _;
      try reflexivity; vm_compute in Hf, Hg; congruence.
  - intros p. split; reflexivity.
  - reflexivity.
Defined.

(** ** File names *)

Section Names.

Lemma rfind_app (c : ascii) (a b : string) :
  rfind c (a ++ b)
  = match rfind c b with
    | Some i => Some (String.length a + i)
    | None => rfind c a
    end.
Proof.
  induction a as [|x a IH]; simpl.
  - now destruct (rfind c b).
  - rewrite IH. destruct (rfind c b); [reflexivity|].
    now destruct (rfind c a).
Qed.

Lemma length_append (a b : string) :
  String.length (a ++ b) = String.length a + String.length b.
Proof. induction a as [|x a IH]; simpl; [reflexivity | now rewrite IH]. Qed.

Lemma substring_prefix (a b : string) :
  substring 0 (String.length a) (a ++ b) = a.
Proof.
  induction a as [|x a IH]; simpl; [now destruct b | now rewrite IH].
Qed.

Lemma substring_suffix (a b : string) :
  substring (String.length a) (String.length b) (a ++ b) = b.
Proof.
  induction a as [|x a IH]; simpl; [|exact IH].
  induction b as [|y b IHb]; simpl; [reflexivity | now rewrite IHb].
Qed.

Lemma stem_bin (d x : string) :
  x <> "" -> stem (mkPath d (x ++ ".bin")) = x.
Proof.
  intros Hx. unfold stem. cbn [name]. rewrite rfind_app.
  change (rfind "." ".bin") with (Some 0). cbv iota.
  rewrite Nat.add_0_r, length_append.
  assert (0 < String.length x) by (destruct x; [congruence | simpl; lia]).
  replace (0 <? String.length x)%nat with true
    by (symmetry; apply Nat.ltb_lt; lia).
  replace (String.length x <? String.length x + String.length ".bin" - 1)%nat
    with true by (symmetry; apply Nat.ltb_lt; simpl; lia).
  apply substring_prefix.
Qed.

Lemma endswith_bin (x : string) : endswith (x ++ ".bin") ".bin" = true.
Proof.
  unfold endswith. rewrite length_append.
  replace (String.length ".bin" <=? String.length x + String.length ".bin")%nat
    with true by (symmetry; apply Nat.leb_le; lia).
  replace (String.length x + String.length ".bin" - String.length ".bin")
    with (String.length x) by lia.
  now rewrite substring_suffix.
Qed.

End Names.

(** X11: a file named [<a>_<b>.bin] or [<a>_<b>_<rest>.bin], where [a]
    and [b] hold no underscore, is a candidate and derives the slot key
    [<a>_<b>]: whatever follows the second underscore is dropped, and so
    is the extension, and only the extension, even when the name has
    other dots. *)
Theorem slot_key_of_name (d a b suffix : string) :
  lacks "_" a -> lacks "_" b ->
  suffix = "" \/ (exists rest, suffix = "_" ++ rest) ->
  endswith (a ++ "_" ++ b ++ suffix ++ ".bin") ".bin" = true
  /\ base_name_of (stem (mkPath d (a ++ "_" ++ b ++ suffix ++ ".bin")))
     = ok (a ++ "_" ++ b).
Proof.
  intros Ha Hb Hs.
  replace (a ++ "_" ++ b ++ suffix ++ ".bin")
    with ((a ++ "_" ++ b ++ suffix) ++ ".bin")
    by (repeat first [rewrite !append_assoc | progress cbn [append]];
        reflexivity).
  split; [apply endswith_bin|].
  rewrite stem_bin by (destruct a; discriminate).
  unfold base_name_of.
  change (a ++ "_" ++ b ++ suffix) with (a ++ String "_" (b ++ suffix)).
  rewrite split_app by exact Ha.
  destruct Hs as [-> | (rest & ->)].
  - rewrite append_nil_r, split_lacks by exact Hb. reflexivity.
  - change (b ++ "_" ++ rest) with (b ++ String "_" rest).
    rewrite split_app by exact Hb. reflexivity.
Qed.

Lemma slot_key_of_name_witness :
  base_name_of (stem (mkPath "build/shaders"
                        ("vs" ++ "_" ++ "lines" ++ "_glsl.v2" ++ ".bin")))
  = ok ("vs" ++ "_" ++ "lines").
Proof.
  exact (proj2 (slot_key_of_name "build/shaders" "vs" "lines" "_glsl.v2"
                  eq_refl eq_refl
                  (or_intror (ex_intro _ "glsl.v2" eq_refl)))).
Defined.

(** ** The content of the sections *)

Section Content.

Variable w : world.

Lemma embed_step_real (h k : string) (p : path) (data : bytes) :
  exists_ w p = true -> read_bytes w p = Some data ->
  embed_step w h (k, Some p)
  = ok (h ++ slot_section k (str_of_nat (List.length data) ++ " bytes")
                          (bytes_to_cpp_array data ("embedded_" ++ k))).
Proof.
  intros He Hr. unfold embed_step, open_rb. rewrite He, Hr. cbn [bind ok].
  f_equal. unfold slot_section.
  repeat first [rewrite !append_assoc | progress cbn [append]]. reflexivity.
Qed.

Lemma embed_step_placeholder (h k : string) (v : option path) :
  v = None \/ (exists p, v = Some p /\ exists_ w p = false) ->
  embed_step w h (k, v)
  = ok (h ++ slot_section k "placeholder - not compiled" (placeholder_decl k)).
Proof.
  intros [-> | (p & -> & He)]; unfold embed_step; [|rewrite He];
    now rewrite placeholder_section.
Qed.

Lemma header_text_sections (input_dir h : string) (d : dict) :
  for_each scan_step (glob_bin w input_dir) shader_files0 = ok d ->
  header_text w input_dir = ok h ->
  forall k v s, In (k, v) d -> section_of w k v s ->
    exists before after, h = before ++ s ++ after.
Proof.
  intros Hscan Hh k v s Hin Hs. unfold header_text in Hh.
  rewrite Hscan in Hh. cbn [bind ok] in Hh.
  unfold shader_files0 in Hscan. rewrite scan_slots in Hscan.
  destruct (forallb well_formed (glob_bin w input_dir)); [|discriminate Hscan].
  injection Hscan as <-. cbn [for_each] in Hh.
  destruct (embed_step w header_preamble
              ("vs_lines", last_match "vs_lines" (glob_bin w input_dir) None))
    as [e1|h1] eqn:E1; [discriminate Hh|].
  cbn [bind] in Hh.
  destruct (embed_step w h1
              ("fs_lines", last_match "fs_lines" (glob_bin w input_dir) None))
    as [e2|h2] eqn:E2; [discriminate Hh|].
  cbn [bind ok] in Hh. injection Hh as <-.
  destruct Hin as [E | [E | []]]; injection E as <- <-.
  - rewrite Hs in E1. injection E1 as <-.
    destruct (embed_step_section w _ _ _ _ (or_intror eq_refl) E2)
      as (n2 & d2 & -> & _).
    exists header_preamble. eexists.
    repeat first [rewrite !append_assoc | progress cbn [append]]. reflexivity.
  - rewrite Hs in E2. injection E2 as <-.
    exists h1. eexists. rewrite !append_assoc. reflexivity.
Qed.

End Content.

(** X12: in a header that is built, the section of a slot whose selected
    file exists and reads as [data] is the comment line with the byte
    count [len(data)] followed by the serialization of exactly [data];
    the section of a slot with no file, or whose file is gone, is the
    placeholder. *)
Theorem section_content (w : world) (input_dir h : string) (d : dict)
  (k : string) (v : option path) :
  for_each scan_step (glob_bin w input_dir) shader_files0 = ok d ->
  header_text w input_dir = ok h ->
  In (k, v) d ->
  (forall p data,
     v = Some p -> exists_ w p = true -> read_bytes w p = Some data ->
     exists before after,
       h = before
           ++ slot_section k (str_of_nat (List.length data) ++ " bytes")
                           (bytes_to_cpp_array data ("embedded_" ++ k))
           ++ after)
  /\ (v = None \/ (exists p, v = Some p /\ exists_ w p = false) ->
      exists before after,
        h = before
            ++ slot_section k "placeholder - not compiled" (placeholder_decl k)
            ++ after).
Proof.
  intros Hscan Hh Hin. split.
  - intros p data -> He Hr.
    apply (header_text_sections w input_dir h d Hscan Hh k (Some p)); [exact Hin|].
    intros h0. now apply embed_step_real.
  - intros Hv.
    apply (header_text_sections w input_dir h d Hscan Hh k v); [exact Hin|].
    intros h0. now apply embed_step_placeholder.
Qed.

Lemma section_content_witness :
  let w := mkWorld (fun _ => ["vs_lines_glsl.bin"]) (fun _ => true)
                   (fun _ => Some [x01; x02; x03]) (fun _ => true) in
  exists h before after,
    header_text w "build/shaders" = ok h
    /\ h = before
           ++ slot_section "vs_lines" (str_of_nat 3 ++ " bytes")
                (bytes_to_cpp_array [x01; x02; x03] "embedded_vs_lines")
           ++ after.
Proof.
  intros w.
  destruct (proj1 (section_content w "build/shaders" _ _ "vs_lines"
                     (Some (mkPath "build/shaders" "vs_lines_glsl.bin"))
                     eq_refl eq_refl (or_introl eq_refl))
              _ [x01; x02; x03] eq_refl eq_refl eq_refl)
    as (before & after & H).
  eexists. exists before, after. split; [reflexivity | exact H].
Defined.

(** ** A selected file that cannot be read, or is gone *)

Section Gone.

Variable w : world.


End Gone.


